(** * claude_monitor: a shallow embedding of the eBPF monitor

    The development follows [internal/ebpf/claude_monitor.c].  The program
    keeps two BPF hash maps ([claude_pids], [socket_connections]), a per-CPU
    counter array ([perf_counters]) and a ring buffer ([events]); four
    tracepoint handlers update them.  The kernel helpers the handlers call
    (current pid, clock, memory probes, ring-buffer reservation) are inputs
    of an activation and are gathered in the record [host]. *)

From Stdlib Require Import ZArith Ascii String List Bool Lia.
From stdpp Require Import base option list gmap strings.

Local Open Scope Z_scope.

(** ** Machine integers and bytes *)

Definition wrap32 (z : Z) : Z := z mod 2 ^ 32.
Definition wrap64 (z : Z) : Z := z mod 2 ^ 64.

(** Conversion to a C [int] (two's complement, 32 bits). *)
Definition to_int (z : Z) : Z := (z + 2 ^ 31) mod 2 ^ 32 - 2 ^ 31.

Definition NUL : ascii := Ascii.zero.
Definition SP : ascii := " "%char.

Definition char_code (c : ascii) : Z := Z.of_N (N_of_ascii c).

Definition chars (s : string) : list ascii := list_ascii_of_string s.

(** A [char] array of fixed capacity holding [s], zero padded. *)
Definition char_array (cap : nat) (s : string) : list ascii :=
  take cap (chars s ++ replicate cap NUL).

(** ** Compile-time constants *)

Definition MAX_COMM_LEN : Z := 16.
Definition MAX_PATH_LEN : Z := 256.
Definition MAX_HTTP_METHOD_LEN : Z := 8.
Definition MAX_HTTP_URI_LEN : Z := 128.
Definition CLAUDE_COMM : string := "claude".
Definition HTTP_HEADER_SIZE : Z := 512.
Definition AF_INET : Z := 2.

Definition EVENT_EXEC : Z := 1.
Definition EVENT_CONNECT : Z := 2.
Definition EVENT_EXIT : Z := 3.
Definition EVENT_HTTP_REQUEST : Z := 4.

(** ** Probed memory

    [bpf_probe_read_user] and [bpf_probe_read_kernel] either copy the bytes
    or report a fault.  An address space is a partial function from
    addresses to bytes; [None] is an address whose probe fails. *)

Definition umem : Type := Z -> option ascii.

Definition bpf_probe_read_user (m : umem) (p : Z) : option ascii := m p.

(** User memory holding the bytes [bs] at [base] and nothing else. *)
Definition mem_of (base : Z) (bs : list ascii) : umem :=
  fun p => if (base <=? p) then bs !! Z.to_nat (p - base) else None.

(** ** HTTP request parser *)

(** The scan of [parse_http_method], with the method buffer as it leaves
    it.  [None] is the [return -1] taken on a probe fault inside the loop;
    otherwise the loop ends with the value of [space_pos].  [fuel] is the
    unrolled bound. *)
Fixpoint parse_http_method_loop (m : umem) (data data_len : Z)
    (max_len : Z) (fuel : nat) (i : Z) (method_out : list ascii)
    : option Z * list ascii :=
  match fuel with
  | O => (Some (-1), method_out)
  | S fuel' =>
      if (i <? MAX_HTTP_METHOD_LEN) && (i <? data_len) then
        match bpf_probe_read_user m (data + i) with
        | None => (None, method_out)
        | Some c =>
            if Ascii.eqb c SP then (Some i, method_out)
            else
              parse_http_method_loop m data data_len max_len fuel' (i + 1)
                (if i <? max_len - 1
                 then <[Z.to_nat i := c]> method_out else method_out)
        end
      else (Some (-1), method_out)
  end.

Definition parse_http_method (m : umem) (data data_len : Z)
    (method_out : list ascii) (max_len : Z) : Z * list ascii :=
  if (data_len <? 8) || (max_len <? 8) then (-1, method_out)
  else
    match parse_http_method_loop m data data_len max_len 8 0 method_out with
    | (None, out) => (-1, out)
    | (Some space_pos, out) =>
        if (space_pos =? -1) || (space_pos >=? max_len) then (-1, out)
        else (space_pos, <[Z.to_nat space_pos := NUL]> out)
    end.

(** The scan of [parse_http_uri]; the loop ends with [uri_len]. *)
Fixpoint parse_http_uri_loop (m : umem) (uri_start uri_max_len : Z)
    (max_len : Z) (fuel : nat) (i : Z) (uri_out : list ascii)
    : option Z * list ascii :=
  match fuel with
  | O => (Some 0, uri_out)
  | S fuel' =>
      if (i <? MAX_HTTP_URI_LEN) && (i <? uri_max_len) then
        match bpf_probe_read_user m (uri_start + i) with
        | None => (None, uri_out)
        | Some c =>
            if Ascii.eqb c SP then (Some i, uri_out)
            else
              parse_http_uri_loop m uri_start uri_max_len max_len fuel' (i + 1)
                (if i <? max_len - 1
                 then <[Z.to_nat i := c]> uri_out else uri_out)
        end
      else (Some 0, uri_out)
  end.

Definition parse_http_uri (m : umem) (data data_len method_len : Z)
    (uri_out : list ascii) (max_len : Z) : Z * list ascii :=
  if (data_len <? method_len + 2) || (method_len >=? data_len)
  then (-1, uri_out)
  else
    let uri_start := data + method_len + 1 in
    let uri_max_len := data_len - method_len - 1 in
    match parse_http_uri_loop m uri_start uri_max_len max_len 128 0 uri_out with
    | (None, out) => (-1, out)
    | (Some uri_len, out) =>
        if (uri_len =? 0) || (uri_len >=? max_len) then (-1, out)
        else (uri_len, <[Z.to_nat uri_len := NUL]> out)
    end.

(** Outcome of comparing the bytes at [p] with the header literal. *)
Inductive header_cmp : Type :=
  | CmpFault      (* a probe failed: [return 0] *)
  | CmpMismatch   (* [match = 0; break] *)
  | CmpMatch.     (* the inner loop ran to its end with [match = 1] *)

Fixpoint cl_header_cmp (m : umem) (p : Z) (cl_header : list ascii)
    : header_cmp :=
  match cl_header with
  | [] => CmpMatch
  | h :: rest =>
      match bpf_probe_read_user m p with
      | None => CmpFault
      | Some c =>
          if negb (Ascii.eqb c h) then CmpMismatch
          else cl_header_cmp m (p + 1) rest
      end
  end.

(** The digit loop: at most ten iterations, stopped by the end of the
    data, a probe fault or a byte that is not a digit. *)
Fixpoint cl_digits (m : umem) (data data_len start_pos : Z)
    (fuel : nat) (k : Z) (content_len : Z) : Z :=
  match fuel with
  | O => content_len
  | S fuel' =>
      if (k <? 10) && (start_pos + k <? data_len) then
        match bpf_probe_read_user m (data + start_pos + k) with
        | None => content_len
        | Some c =>
            if (char_code "0" <=? char_code c) && (char_code c <=? char_code "9")
            then cl_digits m data data_len start_pos fuel' (k + 1)
                   (wrap32 (content_len * 10 + (char_code c - char_code "0")))
            else content_len
        end
      else content_len
  end.

Definition cl_header : list ascii := chars "Content-Length: ".
Definition cl_header_len : Z := 16.

Fixpoint parse_content_length_loop (m : umem) (data data_len : Z)
    (fuel : nat) (i : Z) : Z :=
  match fuel with
  | O => 0
  | S fuel' =>
      if (i <? HTTP_HEADER_SIZE) && (i <? data_len - cl_header_len) then
        match cl_header_cmp m (data + i) cl_header with
        | CmpFault => 0
        | CmpMatch =>
            let start_pos := i + cl_header_len in
            cl_digits m data data_len start_pos 10 0 0
        | CmpMismatch => parse_content_length_loop m data data_len fuel' (i + 1)
        end
      else 0
  end.

Definition parse_content_length (m : umem) (data data_len : Z) : Z :=
  parse_content_length_loop m data data_len 512 0.

Definition is_anthropic_connection (addr port : Z) : bool :=
  (port =? 443) || (port =? 80).

(** ** Process-name filter *)

Definition target : list ascii := chars CLAUDE_COMM ++ [NUL].

(** [comm] is a [char[16]]; an index past the end of the list reads NUL. *)
Definition char_at (s : list ascii) (i : nat) : ascii := nth i s NUL.

Fixpoint is_claude_process_loop (comm : list ascii) (fuel : nat) (i : nat)
    : bool :=
  match fuel with
  | O => true
  | S fuel' =>
      if (i <? length target - 1)%nat then
        if negb (Ascii.eqb (char_at comm i) (char_at target i)) then false
        else if Ascii.eqb (char_at comm i) NUL then true
        else is_claude_process_loop comm fuel' (i + 1)%nat
      else true
  end.

Definition is_claude_process (comm : list ascii) : bool :=
  is_claude_process_loop comm 6 0.

(** ** Event records and map values *)

Record claude_event : Type := mk_event {
  timestamp : Z;
  pid : Z;
  ppid : Z;
  uid : Z;
  event_type : Z;
  target_addr : Z;
  target_port : Z;
  exit_code : Z;
  comm : list ascii;
  path : list ascii;
  http_method : list ascii;
  http_uri : list ascii;
  content_length : Z;
  socket_fd : Z
}.

Record socket_info : Type := mk_socket_info {
  si_pid : Z;
  si_target_addr : Z;
  si_target_port : Z;
  si_connect_time : Z
}.

Inductive perf_counter : Type :=
  | COUNTER_EVENTS_PROCESSED
  | COUNTER_EVENTS_DROPPED
  | COUNTER_EXECVE_CALLS
  | COUNTER_CONNECT_CALLS
  | COUNTER_HTTP_REQUESTS.

Definition counter_key (c : perf_counter) : Z :=
  match c with
  | COUNTER_EVENTS_PROCESSED => 0
  | COUNTER_EVENTS_DROPPED => 1
  | COUNTER_EXECVE_CALLS => 2
  | COUNTER_CONNECT_CALLS => 3
  | COUNTER_HTTP_REQUESTS => 4
  end.

(** ** The maps of the program

    [claude_pids] and [socket_connections] are BPF hash maps, [perf_counters]
    a per-CPU array indexed here by (cpu, key), and [events] the records
    submitted to the ring buffer, oldest first. *)

Record bpf_state : Type := mk_state {
  claude_pids : gmap Z Z;
  socket_connections : gmap Z socket_info;
  perf_counters : gmap (nat * Z) Z;
  events : list claude_event
}.

Definition claude_pids_max_entries : nat := 1024.
Definition socket_connections_max_entries : nat := 2048.
Definition perf_counters_max_entries : Z := 5.

Definition set_claude_pids (f : gmap Z Z -> gmap Z Z) (s : bpf_state)
    : bpf_state :=
  mk_state (f (claude_pids s)) (socket_connections s) (perf_counters s)
    (events s).

Definition set_socket_connections
    (f : gmap Z socket_info -> gmap Z socket_info) (s : bpf_state)
    : bpf_state :=
  mk_state (claude_pids s) (f (socket_connections s)) (perf_counters s)
    (events s).

Definition set_perf_counters
    (f : gmap (nat * Z) Z -> gmap (nat * Z) Z) (s : bpf_state) : bpf_state :=
  mk_state (claude_pids s) (socket_connections s) (f (perf_counters s))
    (events s).

(** [bpf_ringbuf_submit]: the record becomes visible to the consumer. *)
Definition bpf_ringbuf_submit (event : claude_event) (s : bpf_state)
    : bpf_state :=
  mk_state (claude_pids s) (socket_connections s) (perf_counters s)
    (events s ++ [event]).

(** [bpf_map_update_elem] with [BPF_ANY] on a hash map of [max_entries]
    slots: an existing key is overwritten, a new key is inserted while
    there is room, and the update is refused (the map is left as it is)
    once the map is full.  The handlers ignore the return value. *)
Definition bpf_map_update_elem {V : Type} (max_entries : nat)
    (k : Z) (v : V) (m : gmap Z V) : gmap Z V :=
  match m !! k with
  | Some _ => <[k := v]> m
  | None => if (size m <? max_entries)%nat then <[k := v]> m else m
  end.

(** [bpf_map_delete_elem]: deleting an absent key changes nothing. *)
Definition bpf_map_delete_elem {V : Type} (k : Z) (m : gmap Z V)
    : gmap Z V :=
  delete k m.

(** [bpf_map_lookup_elem] on the per-CPU array: a slot exists for every
    key below [max_entries] and starts at zero. *)
Definition percpu_lookup (m : gmap (nat * Z) Z) (cpu : nat) (key : Z)
    : option Z :=
  if (0 <=? key) && (key <? perf_counters_max_entries)
  then Some (default 0 (m !! (cpu, key)))
  else None.

Definition increment_counter (cpu : nat) (counter : perf_counter)
    (s : bpf_state) : bpf_state :=
  let key := counter_key counter in
  match percpu_lookup (perf_counters s) cpu key with
  | Some count =>
      set_perf_counters (fun m => <[(cpu, key) := wrap64 (count + 1)]> m) s
  | None => s
  end.

(** Value of a counter on one processor. *)
Definition counter_value (s : bpf_state) (cpu : nat) (c : perf_counter) : Z :=
  default 0 (perf_counters s !! (cpu, counter_key c)).

(** ** What the host supplies to an activation *)

Record host : Type := mk_host {
  current_task : Z;                  (* bpf_get_current_task() *)
  current_task_btf : Z;              (* bpf_get_current_task_btf() *)
  current_pid_tgid : Z;              (* bpf_get_current_pid_tgid() *)
  current_uid_gid : Z;               (* bpf_get_current_uid_gid() *)
  ktime_ns : Z;                      (* bpf_ktime_get_ns() *)
  current_comm : option (list ascii);(* bpf_get_current_comm(): 16 bytes,
                                        [None] when the helper fails *)
  cpu : nat;                         (* the processor running the handler *)
  ringbuf_reserve_ok : bool;         (* does bpf_ringbuf_reserve succeed *)
  real_parent_pid : Z;               (* BPF_CORE_READ(task, real_parent, pid) *)
  task_comm : list ascii;            (* BPF_CORE_READ_STR_INTO(.., task, comm) *)
  user_mem : umem;
  kernel_mem : umem
}.

Record trace_event_raw_sys_enter : Type := mk_sys_enter {
  tp_id : Z;
  args : list Z                      (* unsigned long args[6] *)
}.

Definition arg (ctx : trace_event_raw_sys_enter) (n : nat) : Z :=
  nth n (args ctx) 0.

Record trace_event_raw_sched_process_template : Type := mk_sched {
  tp_comm : list ascii;
  tp_pid : Z;                        (* __s32 *)
  tp_prio : Z;
  tp_exit_code : Z
}.

(** The reserved record after the [__builtin_memset] that zeroes it. *)
Definition zero_event : claude_event :=
  mk_event 0 0 0 0 0 0 0 0
    (replicate 16 NUL) (replicate 256 NUL) (replicate 8 NUL)
    (replicate 128 NUL) 0 0.

(** [bpf_get_current_comm] into a zeroed 16-byte field whose result is not
    checked: on failure the field stays zero. *)
Definition comm_or_zero (h : host) : list ascii :=
  default (replicate 16 NUL) (current_comm h).

(** [bpf_probe_read_user_str(dst, size, src)]: copy up to [size - 1] bytes
    of the NUL-terminated string at [src] and terminate it; on a fault
    the destination is zero filled. *)
Fixpoint read_user_str (m : umem) (src : Z) (n : nat) : option (list ascii) :=
  match n with
  | O => Some []
  | S n' =>
      match bpf_probe_read_user m src with
      | None => None
      | Some c =>
          if Ascii.eqb c NUL then Some []
          else cons c <$> read_user_str m (src + 1) n'
      end
  end.

Definition bpf_probe_read_user_str (m : umem) (dst : list ascii) (src : Z)
    : list ascii :=
  match read_user_str m src (length dst - 1) with
  | Some str => str ++ [NUL] ++ drop (length str + 1) dst
  | None => replicate (length dst) NUL
  end.

(** Little-endian reads through [bpf_probe_read_kernel]. *)
Definition bpf_probe_read_kernel_u16 (m : umem) (p : Z) : option Z :=
  match m p, m (p + 1) with
  | Some b0, Some b1 => Some (char_code b0 + 256 * char_code b1)
  | _, _ => None
  end.

Definition bpf_probe_read_kernel_u32 (m : umem) (p : Z) : option Z :=
  match m p, m (p + 1), m (p + 2), m (p + 3) with
  | Some b0, Some b1, Some b2, Some b3 =>
      Some (char_code b0 + 256 * char_code b1 + 65536 * char_code b2
            + 16777216 * char_code b3)
  | _, _, _, _ => None
  end.

(** [bpf_ntohs] on a little-endian target: swap the two bytes. *)
Definition bpf_ntohs (x : Z) : Z :=
  Z.lor (Z.shiftl (Z.land x 255) 8) (Z.land (Z.shiftr x 8) 255).

(** Offsets of [struct sockaddr_in] (vmlinux.h). *)
Definition sin_family_off : Z := 0.
Definition sin_port_off : Z := 2.
Definition sin_addr_off : Z := 4.

(** [bpf_get_current_pid_tgid() >> 32], stored in a [__u32]. *)
Definition current_pid (h : host) : Z :=
  wrap32 (Z.shiftr (current_pid_tgid h) 32).

Definition current_uid (h : host) : Z :=
  Z.land (current_uid_gid h) 4294967295.

(** ** Tracepoint handlers

    Each handler returns its C return value and the state it leaves. *)

Definition trace_execve (ctx : trace_event_raw_sys_enter) (h : host)
    (s : bpf_state) : Z * bpf_state :=
  let task := current_task h in
  if task =? 0 then (0, s)
  else
    let pid := current_pid h in
    let ts := ktime_ns h in
    let uid := current_uid h in
    match current_comm h with
    | None => (0, s)
    | Some comm =>
        if negb (is_claude_process comm) then (0, s)
        else
          let s := increment_counter (cpu h) COUNTER_EXECVE_CALLS s in
          if negb (ringbuf_reserve_ok h)
          then (0, increment_counter (cpu h) COUNTER_EVENTS_DROPPED s)
          else
            let filename := arg ctx 0 in
            let event :=
              mk_event ts pid (real_parent_pid h) uid EVENT_EXEC 0 0 0
                comm
                (if filename =? 0 then path zero_event
                 else bpf_probe_read_user_str (user_mem h) (path zero_event)
                        filename)
                (http_method zero_event) (http_uri zero_event) 0 0 in
            let s :=
              set_claude_pids
                (bpf_map_update_elem claude_pids_max_entries pid ts) s in
            let s := bpf_ringbuf_submit event s in
            (0, increment_counter (cpu h) COUNTER_EVENTS_PROCESSED s)
    end.

Definition trace_connect (ctx : trace_event_raw_sys_enter) (h : host)
    (s : bpf_state) : Z * bpf_state :=
  let pid := current_pid h in
  match claude_pids s !! pid with
  | None => (0, s)
  | Some _ =>
      let s := increment_counter (cpu h) COUNTER_CONNECT_CALLS s in
      let ts := ktime_ns h in
      let addr := arg ctx 1 in
      if addr =? 0 then (0, s)
      else
        match bpf_probe_read_kernel_u16 (kernel_mem h) (addr + sin_family_off)
        with
        | None => (0, s)
        | Some family =>
            if negb (family =? AF_INET) then (0, s)
            else if negb (ringbuf_reserve_ok h)
            then (0, increment_counter (cpu h) COUNTER_EVENTS_DROPPED s)
            else
              match
                bpf_probe_read_kernel_u32 (kernel_mem h) (addr + sin_addr_off),
                bpf_probe_read_kernel_u16 (kernel_mem h) (addr + sin_port_off)
              with
              | Some raw_addr, Some raw_port =>
                  let port := bpf_ntohs raw_port in
                  let event :=
                    mk_event ts pid 0 (current_uid h) EVENT_CONNECT
                      raw_addr port 0 (comm_or_zero h)
                      (path zero_event) (http_method zero_event)
                      (http_uri zero_event) 0 0 in
                  let s :=
                    if is_anthropic_connection raw_addr port then
                      let socket_fd := wrap32 (arg ctx 0) in
                      let sock_info := mk_socket_info pid raw_addr port ts in
                      set_socket_connections
                        (bpf_map_update_elem socket_connections_max_entries
                           socket_fd sock_info) s
                    else s in
                  let s := bpf_ringbuf_submit event s in
                  (0, increment_counter (cpu h) COUNTER_EVENTS_PROCESSED s)
              | _, _ => (0, s)       (* bpf_ringbuf_discard *)
              end
        end
  end.

Definition trace_exit (ctx : trace_event_raw_sched_process_template)
    (h : host) (s : bpf_state) : Z * bpf_state :=
  let pid := wrap32 (tp_pid ctx) in
  match claude_pids s !! pid with
  | None => (0, s)
  | Some _ =>
      if negb (ringbuf_reserve_ok h) then
        let s := set_claude_pids (bpf_map_delete_elem pid) s in
        (0, increment_counter (cpu h) COUNTER_EVENTS_DROPPED s)
      else
        let event :=
          mk_event (ktime_ns h) pid 0 0 EVENT_EXIT 0 0 (tp_exit_code ctx)
            (if current_task_btf h =? 0 then comm zero_event else task_comm h)
            (path zero_event) (http_method zero_event) (http_uri zero_event)
            0 0 in
        let s := set_claude_pids (bpf_map_delete_elem pid) s in
        let s := bpf_ringbuf_submit event s in
        (0, increment_counter (cpu h) COUNTER_EVENTS_PROCESSED s)
  end.

Definition trace_write (ctx : trace_event_raw_sys_enter) (h : host)
    (s : bpf_state) : Z * bpf_state :=
  let pid := current_pid h in
  match claude_pids s !! pid with
  | None => (0, s)
  | Some _ =>
      let socket_fd := wrap32 (arg ctx 0) in
      let buf := arg ctx 1 in
      let count := arg ctx 2 in
      match socket_connections s !! socket_fd with
      | None => (0, s)
      | Some sock_info =>
          if (count <? 16) || (count >? HTTP_HEADER_SIZE) then (0, s)
          else
            let ts := ktime_ns h in
            let method := replicate 8 NUL in
            let uri := replicate 128 NUL in
            let '(method_len, method) :=
              parse_http_method (user_mem h) buf (to_int count) method 8 in
            if method_len <? 3 then (0, s)
            else
              let '(uri_len, uri) :=
                parse_http_uri (user_mem h) buf (to_int count) method_len
                  uri 128 in
              if uri_len <? 1 then (0, s)
              else
                let content_length :=
                  parse_content_length (user_mem h) buf (to_int count) in
                let s := increment_counter (cpu h) COUNTER_HTTP_REQUESTS s in
                if negb (ringbuf_reserve_ok h)
                then (0, increment_counter (cpu h) COUNTER_EVENTS_DROPPED s)
                else
                  let event :=
                    mk_event ts pid 0 (current_uid h) EVENT_HTTP_REQUEST
                      (si_target_addr sock_info) (si_target_port sock_info) 0
                      (comm_or_zero h) (path zero_event) method uri
                      content_length socket_fd in
                  let s := bpf_ringbuf_submit event s in
                  (0, increment_counter (cpu h) COUNTER_EVENTS_PROCESSED s)
      end
  end.

(** ** Concrete inputs used by the examples *)

(** A blank 16-byte [comm] holding a name. *)
Definition comm_of (name : string) : list ascii := char_array 16 name.

Definition empty_state : bpf_state := mk_state ∅ ∅ ∅ [].

(** Process 7 is tracked and its descriptor 5 is correlated with
    1.2.3.4:443. *)
Definition tracked_state : bpf_state :=
  mk_state {[ 7 := 100 ]} {[ 5 := mk_socket_info 7 16909060 443 150 ]} ∅ [].

(** A host running process 7 (thread 9) on processor 0. *)
Definition host_of (name : string) (reserve_ok : bool) (um km : umem) : host :=
  mk_host 4096 4096 (Z.shiftl 7 32 + 9) 1000 200 (Some (comm_of name))
    0%nat reserve_ok 1 (comm_of name) um km.

Definition no_mem : umem := fun _ => None.

(** ** Vocabulary for statements about the scans *)

(** The bytes [cs] can be probed at [p], in order. *)
Fixpoint readable (m : umem) (p : Z) (cs : list ascii) : Prop :=
  match cs with
  | [] => True
  | c :: rest => m p = Some c /\ readable m (p + 1) rest
  end.

Definition no_space (cs : list ascii) : Prop := Forall (fun c => c <> SP) cs.

(** A token at [p]: readable bytes without a space, then a space. *)
Definition token_at (m : umem) (p : Z) (cs : list ascii) : Prop :=
  readable m p cs /\ no_space cs /\ m (p + Z.of_nat (length cs)) = Some SP.

(** A scan from [p] that meets a probe fault before any space. *)
Definition fault_at (m : umem) (p : Z) (cs : list ascii) : Prop :=
  readable m p cs /\ no_space cs /\ m (p + Z.of_nat (length cs)) = None.

(** Two address ranges of [n] bytes with the same contents. *)
Definition same_bytes (m : umem) (p : Z) (m' : umem) (p' : Z) (n : Z) : Prop :=
  forall j, 0 <= j < n -> m (p + j) = m' (p' + j).

(** [out] after the stores [out[i] = c0; out[i + 1] = c1; ...]. *)
Fixpoint store (out : list ascii) (i : nat) (cs : list ascii) : list ascii :=
  match cs with
  | [] => out
  | c :: rest => store (<[i := c]> out) (S i) rest
  end.

(** The common shape of the two token scans: bound [B], data limit [L],
    result [d] when the loop ends without a space. *)
Fixpoint scan_loop (m : umem) (base B L max_len d : Z) (fuel : nat) (i : Z)
    (out : list ascii) : option Z * list ascii :=
  match fuel with
  | O => (Some d, out)
  | S fuel' =>
      if (i <? B) && (i <? L) then
        match m (base + i) with
        | None => (None, out)
        | Some c =>
            if Ascii.eqb c SP then (Some i, out)
            else scan_loop m base B L max_len d fuel' (i + 1)
                   (if i <? max_len - 1 then <[Z.to_nat i := c]> out else out)
        end
      else (Some d, out)
  end.

Definition is_digit (c : ascii) : bool :=
  (48 <=? char_code c) && (char_code c <=? 57).

Definition digit_value (c : ascii) : Z := char_code c - 48.

(** The decimal number written by [ds], continuing from [acc]. *)
Definition decimal (ds : list ascii) (acc : Z) : Z :=
  fold_left (fun a c => a * 10 + digit_value c) ds acc.

(** The same with the 32-bit wrap-around of [content_len] at each step. *)
Definition accumulate (ds : list ascii) (acc : Z) : Z :=
  fold_left (fun a c => wrap32 (a * 10 + digit_value c)) ds acc.

(** The request line of a write buffer: a method token of 3 to 7 bytes
    at [buf] and, after its space, a non-empty URI token that ends within
    the 128-byte bound and within the [count] bytes written. *)
Definition request_line (m : umem) (buf count : Z)
    (method uri : list ascii) : Prop :=
  token_at m buf method
  /\ 3 <= Z.of_nat (length method) < 8
  /\ token_at m (buf + Z.of_nat (length method) + 1) uri
  /\ 0 < Z.of_nat (length uri) < 128
  /\ Z.of_nat (length uri) < count - Z.of_nat (length method) - 1.

(** A zero-padded [char] array of capacity [cap] starting with [cs]. *)
Definition padded (cap : nat) (cs : list ascii) : list ascii :=
  cs ++ replicate (cap - length cs) NUL.

(** The record [trace_write] fills in for a parsed request. *)
Definition http_request_event (ctx : trace_event_raw_sys_enter) (h : host)
    (sock_info : socket_info) (method uri : list ascii) (content_len : Z)
    : claude_event :=
  mk_event (ktime_ns h) (current_pid h) 0 (current_uid h) EVENT_HTTP_REQUEST
    (si_target_addr sock_info) (si_target_port sock_info) 0
    (comm_or_zero h) (replicate 256 NUL) (padded 8 method) (padded 128 uri)
    content_len (wrap32 (arg ctx 0)).

(** The record [trace_connect] fills in. *)
Definition connect_event (h : host) (raw_addr port : Z) : claude_event :=
  mk_event (ktime_ns h) (current_pid h) 0 (current_uid h) EVENT_CONNECT
    raw_addr port 0 (comm_or_zero h) (replicate 256 NUL) (replicate 8 NUL)
    (replicate 128 NUL) 0 0.

(** What the handler does once method and URI are parsed. *)
Definition write_outcome (h : host) (s : bpf_state) (ev : claude_event)
    : bpf_state :=
  let s := increment_counter (cpu h) COUNTER_HTTP_REQUESTS s in
  if ringbuf_reserve_ok h
  then increment_counter (cpu h) COUNTER_EVENTS_PROCESSED
         (bpf_ringbuf_submit ev s)
  else increment_counter (cpu h) COUNTER_EVENTS_DROPPED s.

(** The header search reaches offset [i]: every earlier offset was
    compared without a fault and did not match. *)
Definition search_reaches (m : umem) (data data_len i : Z) : Prop :=
  0 <= i < HTTP_HEADER_SIZE /\ i < data_len - cl_header_len
  /\ forall j, 0 <= j < i ->
       cl_header_cmp m (data + j) cl_header = CmpMismatch.

(** The first occurrence of the header literal is at offset [i]. *)
Definition header_at (m : umem) (data data_len i : Z) : Prop :=
  search_reaches m data data_len i /\ readable m (data + i) cl_header.

Definition all_digits (ds : list ascii) : Prop :=
  Forall (fun c => is_digit c = true) ds.

Definition CRLF : string := String "013" (String "010" EmptyString).

(** The request of the worked example, 49 bytes. *)
Definition request : list ascii :=
  chars ("GET /v1/messages HTTP/1.1" ++ CRLF ++ "Content-Length: 42" ++ CRLF
         ++ CRLF).

(** A request whose method has two letters. *)
Definition short_method_request : list ascii :=
  chars ("AB /v1/messages HTTP/1.1" ++ CRLF ++ CRLF).

Definition byte (z : Z) : ascii := ascii_of_N (Z.to_N z).

(** A [struct sockaddr_in] for a.b.c.d:port as it lies in memory. *)
Definition sockaddr_in_bytes (family port a b c d : Z) : list ascii :=
  [byte (family mod 256); byte (family / 256);
   byte (port / 256); byte (port mod 256);
   byte a; byte b; byte c; byte d] ++ replicate 8 NUL.

(** A write of [count] bytes at [buf] on descriptor [fd]. *)
Definition write_ctx (fd buf count : Z) : trace_event_raw_sys_enter :=
  mk_sys_enter 1 [fd; buf; count; 0; 0; 0].

(** A connect on descriptor [fd] to the address structure at [addr]. *)
Definition connect_ctx (fd addr : Z) : trace_event_raw_sys_enter :=
  mk_sys_enter 42 [fd; addr; 16; 0; 0; 0].

(** An exec of the program whose path is at [filename]. *)
Definition exec_ctx (filename : Z) : trace_event_raw_sys_enter :=
  mk_sys_enter 59 [filename; 0; 0; 0; 0; 0].

Definition exit_ctx (p code : Z) : trace_event_raw_sched_process_template :=
  mk_sched (comm_of "claude") p 120 code.

(** A correlation tracker with all of its 2048 slots taken, by the
    descriptors 1000 .. 3047. *)
Definition full_sockets : gmap Z socket_info :=
  list_to_map
    (map (fun i => (1000 + Z.of_nat i, mk_socket_info 7 16909060 443 150))
       (seq 0 2048)).

(** Process 7 is tracked and the correlation tracker is full. *)
Definition crowded_state : bpf_state :=
  mk_state {[ 7 := 100 ]} full_sockets ∅ [].

(** Kernel memory with a [sockaddr_in] for 1.2.3.4 and the given port. *)
Definition sockaddr_mem (port : Z) : umem :=
  mem_of 20480 (sockaddr_in_bytes AF_INET port 1 2 3 4).

(** ** Kernel string copy *)

Definition bpf_probe_read_kernel (m : umem) (p : Z) : option ascii := m p.

(** The loop of [safe_strcpy]; it ends with the value of [i] and the
    destination.  The loop runs at most [max_len - 1] times, which is the
    [fuel] its caller gives it. *)
Fixpoint safe_strcpy_loop (m : umem) (src max_len : Z) (fuel : nat) (i : Z)
    (dst : list ascii) : Z * list ascii :=
  match fuel with
  | O => (i, dst)
  | S fuel' =>
      if i <? max_len - 1 then
        match bpf_probe_read_kernel m (src + i) with
        | None => (i, dst)
        | Some c =>
            if Ascii.eqb c NUL then (i, dst)
            else safe_strcpy_loop m src max_len fuel' (i + 1)
                   (<[Z.to_nat i := c]> dst)
        end
      else (i, dst)
  end.

Definition safe_strcpy (m : umem) (dst : list ascii) (src max_len : Z)
    : Z * list ascii :=
  let '(i, dst) :=
    safe_strcpy_loop m src max_len (Z.to_nat (max_len - 1)) 0 dst in
  (i, if i <? max_len then <[Z.to_nat i := NUL]> dst else dst).

(** ** Sequences of activations

    The host runs one handler per kernel event.  An activation is the
    handler, its context and what the host supplies; [run] executes a
    list of activations one after the other. *)

Inductive activation : Type :=
  | ActExecve (ctx : trace_event_raw_sys_enter) (h : host)
  | ActConnect (ctx : trace_event_raw_sys_enter) (h : host)
  | ActExit (ctx : trace_event_raw_sched_process_template) (h : host)
  | ActWrite (ctx : trace_event_raw_sys_enter) (h : host).

Definition activate (a : activation) (s : bpf_state) : Z * bpf_state :=
  match a with
  | ActExecve ctx h => trace_execve ctx h s
  | ActConnect ctx h => trace_connect ctx h s
  | ActExit ctx h => trace_exit ctx h s
  | ActWrite ctx h => trace_write ctx h s
  end.

Definition run (acts : list activation) (s : bpf_state) : bpf_state :=
  fold_left (fun s a => (activate a s).2) acts s.

(** The pid an activation is about. *)
Definition act_pid (a : activation) : Z :=
  match a with
  | ActExecve _ h | ActConnect _ h | ActWrite _ h => current_pid h
  | ActExit ctx _ => wrap32 (tp_pid ctx)
  end.

Definition act_host (a : activation) : host :=
  match a with
  | ActExecve _ h | ActConnect _ h | ActWrite _ h | ActExit _ h => h
  end.

(** The event type a handler writes into its record. *)
Definition act_event_type (a : activation) : Z :=
  match a with
  | ActExecve _ _ => EVENT_EXEC
  | ActConnect _ _ => EVENT_CONNECT
  | ActExit _ _ => EVENT_EXIT
  | ActWrite _ _ => EVENT_HTTP_REQUEST
  end.

(** An exec activation whose process name passes the filter. *)
Definition matching_exec (a : activation) : Prop :=
  match a with
  | ActExecve _ h =>
      exists name, current_comm h = Some name /\ is_claude_process name = true
  | _ => False
  end.

(** Every correlation entry is for port 443 or 80. *)
Definition interesting_ports_only (s : bpf_state) : Prop :=
  forall fd si,
    socket_connections s !! fd = Some si ->
    si_target_port si = 443 \/ si_target_port si = 80.

(** A matching exec for pid [p] whose reservation succeeds. *)
Definition marks (p : Z) (a : activation) : Prop :=
  matching_exec a /\ act_pid a = p
  /\ ringbuf_reserve_ok (act_host a) = true.

(** * Properties *)

Arguments wrap32 : simpl never.
Arguments wrap64 : simpl never.
Arguments to_int : simpl never.

Lemma to_int_id (z : Z) : 0 <= z < 2 ^ 31 -> to_int z = z.
Proof.
  intros Hz. unfold to_int.
  rewrite Z.mod_small by lia. lia.
Qed.

(** ** The counter bank *)

Section Counters.
Variables (c : nat) (k : perf_counter) (s : bpf_state).

Lemma increment_counter_eq :
  increment_counter c k s =
  set_perf_counters
    (fun m => <[(c, counter_key k) := wrap64 (counter_value s c k + 1)]> m) s.
Proof. unfold increment_counter, percpu_lookup. by destruct k. Qed.

Lemma increment_counter_pids :
  claude_pids (increment_counter c k s) = claude_pids s.
Proof. by rewrite increment_counter_eq. Qed.

Lemma increment_counter_sockets :
  socket_connections (increment_counter c k s) = socket_connections s.
Proof. by rewrite increment_counter_eq. Qed.

Lemma increment_counter_events :
  events (increment_counter c k s) = events s.
Proof. by rewrite increment_counter_eq. Qed.

Lemma counter_value_incremented :
  counter_value (increment_counter c k s) c k
  = wrap64 (counter_value s c k + 1).
Proof.
  rewrite increment_counter_eq. unfold counter_value; simpl.
  by rewrite lookup_insert_eq.
Qed.

Lemma counter_value_untouched (c' : nat) (k' : perf_counter) :
  c' ≠ c ∨ k' ≠ k ->
  counter_value (increment_counter c k s) c' k' = counter_value s c' k'.
Proof.
  intros Hne. rewrite increment_counter_eq. unfold counter_value; simpl.
  rewrite lookup_insert_ne; [done|].
  intros [= -> Hk]. destruct Hne as [?|Hne]; [done|].
  apply Hne. by destruct k, k'.
Qed.
End Counters.

(** ** The process-name filter *)

Lemma is_claude_process_prefix (comm : list ascii) :
  is_claude_process comm = true <-> take 6 comm = chars CLAUDE_COMM.
Proof.
  unfold is_claude_process.
  destruct comm as [|c0 [|c1 [|c2 [|c3 [|c4 [|c5 rest]]]]]];
    cbn; unfold char_at; cbn;
    repeat match goal with
           | |- context [Ascii.eqb ?a ?b] =>
               destruct (Ascii.eqb_spec a b); subst; cbn
           end;
    (split;
     [intros ?; try discriminate; try congruence
     |intros [=]; try congruence]).
  by rewrite take_0.
Qed.

Lemma trace_execve_filtered ctx h s (comm : list ascii) :
  current_comm h = Some comm ->
  is_claude_process comm = false ->
  trace_execve ctx h s = (0, s).
Proof.
  intros Hc Hf. unfold trace_execve. rewrite Hc, Hf. simpl.
  by destruct (current_task h =? 0).
Qed.

(** ** Activations of an untracked process are ignored *)

Lemma trace_connect_untracked ctx h s :
  claude_pids s !! current_pid h = None -> trace_connect ctx h s = (0, s).
Proof. intros H. unfold trace_connect. by rewrite H. Qed.

Lemma trace_write_untracked ctx h s :
  claude_pids s !! current_pid h = None -> trace_write ctx h s = (0, s).
Proof. intros H. unfold trace_write. by rewrite H. Qed.

Lemma trace_exit_untracked ctx h s :
  claude_pids s !! wrap32 (tp_pid ctx) = None -> trace_exit ctx h s = (0, s).
Proof. intros H. unfold trace_exit. by rewrite H. Qed.

Lemma trace_exit_pids ctx h s :
  claude_pids (trace_exit ctx h s).2
  = delete (wrap32 (tp_pid ctx)) (claude_pids s).
Proof.
  unfold trace_exit.
  destruct (claude_pids s !! wrap32 (tp_pid ctx)) eqn:Hl; cbn [snd].
  - destruct (ringbuf_reserve_ok h); cbn [negb snd];
      by rewrite increment_counter_pids.
  - by rewrite delete_id.
Qed.

(** ** Probed memory *)

Lemma mem_of_lookup base (bs : list ascii) j :
  0 <= j -> mem_of base bs (base + j) = bs !! Z.to_nat j.
Proof.
  intros Hj. unfold mem_of.
  destruct (Z.leb_spec base (base + j)); [|lia].
  by replace (base + j - base) with j by lia.
Qed.

Lemma readable_lookup m p (cs : list ascii) :
  readable m p cs <->
  forall j c, cs !! j = Some c -> m (p + Z.of_nat j) = Some c.
Proof.
  revert p. induction cs as [|c0 cs IH]; intros p; simpl.
  - split; [intros _ j c H; by rewrite lookup_nil in H | done].
  - rewrite IH. split.
    + intros [H0 H] [|j] c Hc; simpl in *.
      * rewrite Z.add_0_r. congruence.
      * rewrite <- (H j c Hc). f_equal. lia.
    + intros H. split.
      * rewrite <- (H 0%nat c0 eq_refl). f_equal. lia.
      * intros j c Hc. rewrite <- (H (S j) c Hc). f_equal. lia.
Qed.

Lemma readable_app m p (cs1 cs2 : list ascii) :
  readable m p (cs1 ++ cs2) <->
  readable m p cs1 /\ readable m (p + Z.of_nat (length cs1)) cs2.
Proof.
  revert p. induction cs1 as [|c cs1 IH]; intros p; simpl.
  - rewrite Z.add_0_r. tauto.
  - rewrite IH.
    replace (p + 1 + Z.of_nat (length cs1))
      with (p + Z.pos (Pos.of_succ_nat (length cs1))) by lia.
    tauto.
Qed.

Lemma readable_mem_of base (pre cs post : list ascii) :
  readable (mem_of base (pre ++ cs ++ post))
    (base + Z.of_nat (length pre)) cs.
Proof.
  apply readable_lookup. intros j c Hc.
  rewrite <- Z.add_assoc, mem_of_lookup by lia.
  replace (Z.to_nat (Z.of_nat (length pre) + Z.of_nat j))
    with (length pre + j)%nat by lia.
  rewrite lookup_app_r by lia.
  replace (length pre + j - length pre)%nat with j by lia.
  by apply lookup_app_l_Some.
Qed.

(** ** The token scans *)

Lemma length_store (cs : list ascii) : forall out i,
  length (store out i cs) = length out.
Proof.
  induction cs as [|c cs IH]; intros out i; simpl; [done|].
  by rewrite IH, length_insert.
Qed.

Lemma store_take_drop (cs : list ascii) : forall out i,
  (i + length cs <= length out)%nat ->
  store out i cs = take i out ++ cs ++ drop (i + length cs) out.
Proof.
  induction cs as [|c cs IH]; intros out i Hlen; simpl in *.
  - by rewrite Nat.add_0_r, take_drop.
  - rewrite IH by (rewrite length_insert; lia).
    rewrite (take_S_r _ i c) by (apply list_lookup_insert_eq; lia).
    rewrite take_insert_ge by lia.
    rewrite drop_insert_lt by lia.
    rewrite <- app_assoc. simpl.
    by replace (i + S (length cs))%nat with (S (i + length cs)) by lia.
Qed.

Lemma store_terminated (cs out : list ascii) :
  (length cs < length out)%nat ->
  <[length cs := NUL]> (store out 0 cs) = cs ++ NUL :: drop (S (length cs)) out.
Proof.
  intros Hlen. rewrite store_take_drop by (simpl; lia). simpl.
  rewrite <- (Nat.add_0_r (length cs)) at 1.
  rewrite insert_app_r. f_equal.
  destruct (drop (length cs) out) as [|x rest] eqn:Hd.
  - apply (f_equal length) in Hd. rewrite length_drop in Hd. simpl in Hd. lia.
  - simpl. f_equal.
    replace (S (length cs)) with (length cs + 1)%nat by lia.
    by rewrite <- drop_drop, Hd.
Qed.

Ltac ltb_true := rewrite (proj2 (Z.ltb_lt _ _)) by lia.
Ltac ltb_false := rewrite (proj2 (Z.ltb_ge _ _)) by lia.

Section Scan.
Variables (m : umem) (base B L max_len d : Z).

Lemma scan_found (cs : list ascii) : forall fuel i out,
  0 <= i -> token_at m (base + i) cs ->
  i + Z.of_nat (length cs) < B ->
  i + Z.of_nat (length cs) < L ->
  i + Z.of_nat (length cs) < max_len ->
  (length cs < fuel)%nat ->
  scan_loop m base B L max_len d fuel i out
  = (Some (i + Z.of_nat (length cs)), store out (Z.to_nat i) cs).
Proof.
  induction cs as [|c cs IH];
    intros fuel i out Hi (Hr & Hns & Hsp) HB HL Hmax Hf;
    (destruct fuel as [|fuel]; [simpl in Hf; lia|]); simpl in *.
  - do 2 ltb_true. simpl.
    rewrite Z.add_0_r in *. rewrite Hsp.
    by rewrite (proj2 (Ascii.eqb_eq SP SP)).
  - do 2 ltb_true. simpl. destruct Hr as [Hc Hr]. rewrite Hc.
    inversion Hns as [|? ? Hne Hns']; subst.
    rewrite (proj2 (Ascii.eqb_neq c SP)) by done.
    ltb_true.
    rewrite (IH fuel (i + 1)); try lia.
    + f_equal; [f_equal; lia|].
      by replace (Z.to_nat (i + 1)) with (S (Z.to_nat i)) by lia.
    + repeat split; [by rewrite Z.add_assoc|done|].
      rewrite <- Hsp. f_equal. lia.
Qed.

Lemma scan_fault (cs : list ascii) : forall fuel i out,
  fault_at m (base + i) cs ->
  i + Z.of_nat (length cs) < B ->
  i + Z.of_nat (length cs) < L ->
  (length cs < fuel)%nat ->
  (scan_loop m base B L max_len d fuel i out).1 = None.
Proof.
  induction cs as [|c cs IH];
    intros fuel i out (Hr & Hns & Hsp) HB HL Hf;
    (destruct fuel as [|fuel]; [simpl in Hf; lia|]); simpl in *.
  - do 2 ltb_true. simpl.
    rewrite Z.add_0_r in *. by rewrite Hsp.
  - do 2 ltb_true. simpl. destruct Hr as [Hc Hr]. rewrite Hc.
    inversion Hns as [|? ? Hne Hns']; subst.
    rewrite (proj2 (Ascii.eqb_neq c SP)) by done.
    apply IH; try lia.
    repeat split; [by rewrite Z.add_assoc|done|].
    rewrite <- Hsp. f_equal. lia.
Qed.

Lemma scan_inv : forall fuel i out r out',
  scan_loop m base B L max_len d fuel i out = (Some r, out') ->
  r <> d ->
  exists cs : list ascii,
    token_at m (base + i) cs /\ r = i + Z.of_nat (length cs)
    /\ r < B /\ r < L.
Proof.
  induction fuel as [|fuel IH]; intros i out r out' H Hd; simpl in H.
  - congruence.
  - destruct (Z.ltb_spec i B), (Z.ltb_spec i L); simpl in H; try congruence.
    destruct (m (base + i)) as [c|] eqn:Hm; [|done].
    destruct (Ascii.eqb_spec c SP) as [->|Hne].
    + injection H as <- <-. exists []. unfold token_at, no_space. simpl.
      rewrite !Z.add_0_r. repeat split; done.
    + apply IH in H as (cs & (Hr & Hns & Hsp) & -> & ? & ?); [|done].
      exists (c :: cs). unfold token_at, no_space. simpl.
      repeat split; try lia.
      * done.
      * by rewrite <- Z.add_assoc.
      * by constructor.
      * rewrite <- Hsp. f_equal. lia.
Qed.

Lemma scan_ext (m' : umem) (base' : Z) : forall fuel i out,
  0 <= i -> same_bytes m base m' base' (Z.min B L) ->
  scan_loop m base B L max_len d fuel i out
  = scan_loop m' base' B L max_len d fuel i out.
Proof.
  induction fuel as [|fuel IH]; intros i out Hi Hsame; simpl; [done|].
  destruct (Z.ltb_spec i B), (Z.ltb_spec i L); simpl; try done.
  rewrite <- (Hsame i) by lia.
  destruct (m (base + i)) as [c|]; [|done].
  destruct (Ascii.eqb c SP); [done|]. apply IH; [lia|done].
Qed.
End Scan.

Lemma parse_http_method_loop_scan m data data_len max_len : forall fuel i out,
  parse_http_method_loop m data data_len max_len fuel i out
  = scan_loop m data MAX_HTTP_METHOD_LEN data_len max_len (-1) fuel i out.
Proof.
  induction fuel as [|fuel IH]; intros i out; simpl; [done|].
  unfold bpf_probe_read_user. by repeat case_match.
Qed.

Lemma parse_http_uri_loop_scan m uri_start uri_max_len max_len :
  forall fuel i out,
  parse_http_uri_loop m uri_start uri_max_len max_len fuel i out
  = scan_loop m uri_start MAX_HTTP_URI_LEN uri_max_len max_len 0 fuel i out.
Proof.
  induction fuel as [|fuel IH]; intros i out; simpl; [done|].
  unfold bpf_probe_read_user. by repeat case_match.
Qed.

(** ** Method and URI extraction *)

Arguments parse_http_method_loop : simpl never.
Arguments parse_http_uri_loop : simpl never.
Arguments scan_loop : simpl never.

Section Extraction.
Variable m : umem.

Lemma parse_http_method_short data data_len out max_len :
  data_len < 8 -> parse_http_method m data data_len out max_len = (-1, out).
Proof. intros H. unfold parse_http_method. by ltb_true. Qed.

Lemma parse_http_method_token data data_len (out : list ascii) max_len
    (cs : list ascii) :
  8 <= data_len -> 8 <= max_len -> (8 <= length out)%nat ->
  token_at m data cs -> Z.of_nat (length cs) < 8 ->
  parse_http_method m data data_len out max_len
  = (Z.of_nat (length cs), cs ++ NUL :: drop (S (length cs)) out).
Proof.
  intros Hd Hm Hout Ht Hcs. unfold parse_http_method.
  do 2 ltb_false. simpl.
  rewrite parse_http_method_loop_scan.
  rewrite (scan_found _ _ _ _ _ _ cs); unfold MAX_HTTP_METHOD_LEN;
    try lia; [|by rewrite Z.add_0_r].
  rewrite Z.add_0_l. change (Z.to_nat 0) with 0%nat.
  destruct (Z.eqb_spec (Z.of_nat (length cs)) (-1)); [lia|].
  destruct (Z.geb_spec (Z.of_nat (length cs)) max_len); [lia|]. simpl.
  by rewrite Nat2Z.id, store_terminated by lia.
Qed.

Lemma parse_http_method_fault data data_len (out : list ascii) max_len
    (cs : list ascii) :
  fault_at m data cs -> Z.of_nat (length cs) < 8 ->
  (parse_http_method m data data_len out max_len).1 = -1.
Proof.
  intros Hf Hcs. unfold parse_http_method.
  destruct (Z.ltb_spec data_len 8), (Z.ltb_spec max_len 8); simpl; try done.
  rewrite parse_http_method_loop_scan.
  pose proof (scan_fault m data MAX_HTTP_METHOD_LEN data_len max_len (-1)
                cs 8 0 out) as Hs.
  destruct (scan_loop _ _ _ _ _ _ _ _ _) as [[r|] out']; [|done].
  unfold MAX_HTTP_METHOD_LEN in Hs. rewrite Z.add_0_r in Hs.
  simpl in Hs. discriminate Hs; done || lia.
Qed.

Lemma parse_http_method_inv data data_len (out : list ascii) max_len :
  (parse_http_method m data data_len out max_len).1 <> -1 ->
  8 <= data_len /\ 8 <= max_len /\
  exists cs : list ascii,
    token_at m data cs /\ Z.of_nat (length cs) < 8
    /\ (parse_http_method m data data_len out max_len).1
       = Z.of_nat (length cs).
Proof.
  unfold parse_http_method.
  destruct (Z.ltb_spec data_len 8), (Z.ltb_spec max_len 8); simpl; try done.
  rewrite parse_http_method_loop_scan.
  destruct (scan_loop _ _ _ _ _ _ _ _ _) as [[r|] out'] eqn:Hs; [|done].
  destruct (Z.eqb_spec r (-1)); simpl; [done|].
  destruct (Z.geb_spec r max_len); simpl; [done|]. intros _.
  apply scan_inv in Hs as (cs & Ht & -> & ? & ?); [|done].
  rewrite Z.add_0_r in Ht. unfold MAX_HTTP_METHOD_LEN in *.
  split; [lia|]. split; [lia|]. exists cs. split; [done|]. simpl. lia.
Qed.

Lemma parse_http_method_ext (m' : umem) data data' data_len out max_len :
  same_bytes m data m' data' data_len ->
  parse_http_method m data data_len out max_len
  = parse_http_method m' data' data_len out max_len.
Proof.
  intros Hs. unfold parse_http_method. rewrite !parse_http_method_loop_scan.
  rewrite (scan_ext m _ _ _ _ _ m' data'); [done|lia|].
  intros j Hj. apply Hs. lia.
Qed.

Lemma parse_http_uri_token data data_len method_len (out : list ascii)
    max_len (cs : list ascii) :
  0 <= method_len ->
  token_at m (data + method_len + 1) cs ->
  0 < Z.of_nat (length cs) < 128 ->
  Z.of_nat (length cs) < data_len - method_len - 1 ->
  Z.of_nat (length cs) < max_len -> (length cs < length out)%nat ->
  parse_http_uri m data data_len method_len out max_len
  = (Z.of_nat (length cs), cs ++ NUL :: drop (S (length cs)) out).
Proof.
  intros Hml Ht Hcs Hlim Hm Hout. unfold parse_http_uri.
  ltb_false. destruct (Z.geb_spec method_len data_len); [lia|]. simpl.
  rewrite parse_http_uri_loop_scan.
  rewrite (scan_found _ _ _ _ _ _ cs); unfold MAX_HTTP_URI_LEN;
    try lia; [|by rewrite Z.add_0_r].
  rewrite Z.add_0_l. change (Z.to_nat 0) with 0%nat.
  destruct (Z.eqb_spec (Z.of_nat (length cs)) 0); [lia|].
  destruct (Z.geb_spec (Z.of_nat (length cs)) max_len); [lia|]. simpl.
  by rewrite Nat2Z.id, store_terminated by lia.
Qed.

Lemma parse_http_uri_fault data data_len method_len (out : list ascii)
    max_len (cs : list ascii) :
  fault_at m (data + method_len + 1) cs ->
  Z.of_nat (length cs) < 128 ->
  Z.of_nat (length cs) < data_len - method_len - 1 ->
  (parse_http_uri m data data_len method_len out max_len).1 = -1.
Proof.
  intros Hf Hcs Hlim. unfold parse_http_uri.
  destruct (Z.ltb_spec data_len (method_len + 2)),
    (Z.geb_spec method_len data_len); simpl; try done.
  rewrite parse_http_uri_loop_scan.
  pose proof (scan_fault m (data + method_len + 1) MAX_HTTP_URI_LEN
                (data_len - method_len - 1) max_len 0 cs 128 0 out) as Hs.
  destruct (scan_loop _ _ _ _ _ _ _ _ _) as [[r|] out']; [|done].
  unfold MAX_HTTP_URI_LEN in Hs. rewrite Z.add_0_r in Hs.
  simpl in Hs. discriminate Hs; done || lia.
Qed.

Lemma parse_http_uri_inv data data_len method_len (out : list ascii)
    max_len :
  (parse_http_uri m data data_len method_len out max_len).1 <> -1 ->
  exists cs : list ascii,
    token_at m (data + method_len + 1) cs
    /\ 0 < Z.of_nat (length cs) < 128
    /\ Z.of_nat (length cs) < data_len - method_len - 1
    /\ Z.of_nat (length cs) < max_len
    /\ (parse_http_uri m data data_len method_len out max_len).1
       = Z.of_nat (length cs).
Proof.
  unfold parse_http_uri.
  destruct (Z.ltb_spec data_len (method_len + 2)),
    (Z.geb_spec method_len data_len); simpl; try done.
  rewrite parse_http_uri_loop_scan.
  destruct (scan_loop _ _ _ _ _ _ _ _ _) as [[r|] out'] eqn:Hs; [|done].
  destruct (Z.eqb_spec r 0); simpl; [done|].
  destruct (Z.geb_spec r max_len); simpl; [done|]. intros _.
  apply scan_inv in Hs as (cs & Ht & -> & ? & ?); [|done].
  rewrite Z.add_0_r in Ht. unfold MAX_HTTP_URI_LEN in *.
  exists cs. split; [done|]. simpl. lia.
Qed.

Lemma parse_http_uri_ext (m' : umem) data data' data_len method_len out
    max_len :
  0 <= method_len ->
  same_bytes m data m' data' data_len ->
  parse_http_uri m data data_len method_len out max_len
  = parse_http_uri m' data' data_len method_len out max_len.
Proof.
  intros Hml Hs. unfold parse_http_uri. rewrite !parse_http_uri_loop_scan.
  rewrite (scan_ext m _ _ _ _ _ m' (data' + method_len + 1)); [done|lia|].
  intros j Hj. rewrite <- !Z.add_assoc. apply Hs. lia.
Qed.
End Extraction.

(** ** Content-Length extraction *)

Lemma wrap32_range z : 0 <= wrap32 z < 2 ^ 32.
Proof. unfold wrap32. apply Z.mod_pos_bound. lia. Qed.

Lemma wrap32_small z : 0 <= z < 2 ^ 32 -> wrap32 z = z.
Proof. intros. unfold wrap32. by apply Z.mod_small. Qed.

Lemma decimal_shift (ds : list ascii) : forall acc,
  decimal ds acc = acc * 10 ^ Z.of_nat (length ds) + decimal ds 0.
Proof.
  unfold decimal. induction ds as [|c ds IH]; intros acc; simpl fold_left.
  - simpl. lia.
  - rewrite IH, (IH (0 * 10 + digit_value c)).
    replace (Z.of_nat (length (c :: ds))) with (Z.succ (Z.of_nat (length ds)))
      by (simpl; lia).
    rewrite Z.pow_succ_r by lia. lia.
Qed.

Lemma accumulate_decimal (ds : list ascii) : forall acc,
  0 <= acc < 2 ^ 32 -> accumulate ds acc = wrap32 (decimal ds acc).
Proof.
  unfold accumulate, decimal.
  induction ds as [|c ds IH]; intros acc Hacc; simpl fold_left.
  - by rewrite wrap32_small.
  - rewrite IH by apply wrap32_range.
    fold (decimal ds (wrap32 (acc * 10 + digit_value c))).
    fold (decimal ds (acc * 10 + digit_value c)).
    rewrite decimal_shift, (decimal_shift ds (acc * 10 + digit_value c)).
    unfold wrap32.
    rewrite Z.add_mod, Z.mul_mod_idemp_l, <- Z.add_mod by lia. done.
Qed.

Lemma decimal_bound (ds : list ascii) :
  Forall (fun c => is_digit c = true) ds ->
  0 <= decimal ds 0 < 10 ^ Z.of_nat (length ds).
Proof.
  induction ds as [|c ds IH] using rev_ind; intros Hd.
  - simpl. lia.
  - apply Forall_app in Hd as [Hds Hc]. inversion Hc as [|? ? Hc' _]; subst.
    specialize (IH Hds). unfold decimal in *. rewrite fold_left_app. simpl.
    rewrite length_app, Nat2Z.inj_add. simpl length.
    rewrite Z.pow_add_r by lia.
    unfold is_digit, digit_value in *. lia.
Qed.

Section ContentLength.
Variables (m : umem) (data data_len : Z).

Lemma cl_header_cmp_match (hdr : list ascii) : forall p,
  readable m p hdr -> cl_header_cmp m p hdr = CmpMatch.
Proof.
  induction hdr as [|c hdr IH]; intros p Hr; simpl in *; [done|].
  destruct Hr as [Hc Hr]. unfold bpf_probe_read_user. rewrite Hc.
  rewrite (proj2 (Ascii.eqb_eq c c)) by done. simpl. by apply IH.
Qed.

Lemma cl_header_cmp_fault (pre rest : list ascii) : forall p,
  readable m p pre -> rest <> [] ->
  m (p + Z.of_nat (length pre)) = None ->
  cl_header_cmp m p (pre ++ rest) = CmpFault.
Proof.
  induction pre as [|c pre IH]; intros p Hr Hrest Hf; simpl in *.
  - destruct rest; [done|]. simpl. unfold bpf_probe_read_user.
    rewrite Z.add_0_r in Hf. by rewrite Hf.
  - destruct Hr as [Hc Hr]. unfold bpf_probe_read_user. rewrite Hc.
    rewrite (proj2 (Ascii.eqb_eq c c)) by done. simpl.
    apply IH; try done. rewrite <- Hf. f_equal. lia.
Qed.

Lemma cl_header_cmp_ext (m' : umem) (hdr : list ascii) : forall p p',
  same_bytes m p m' p' (Z.of_nat (length hdr)) ->
  cl_header_cmp m p hdr = cl_header_cmp m' p' hdr.
Proof.
  induction hdr as [|c hdr IH]; intros p p' Hs; simpl; [done|].
  unfold bpf_probe_read_user.
  replace (m p) with (m' p').
  2:{ specialize (Hs 0). rewrite !Z.add_0_r in Hs. symmetry. apply Hs.
      simpl. lia. }
  destruct (m' p') as [x|]; [|done].
  destruct (Ascii.eqb x c); simpl; [|done].
  apply IH. intros j Hj. rewrite <- !Z.add_assoc. apply Hs. simpl. lia.
Qed.

Lemma cl_digits_end start fuel k acc :
  10 <= k \/ data_len <= start + k
  \/ m (data + start + k) = None
  \/ (exists c, m (data + start + k) = Some c /\ is_digit c = false) ->
  cl_digits m data data_len start fuel k acc = acc.
Proof.
  intros H. destruct fuel as [|fuel]; simpl; [done|].
  destruct (Z.ltb_spec k 10), (Z.ltb_spec (start + k) data_len);
    simpl; try done.
  unfold bpf_probe_read_user.
  destruct H as [?|[?|[->|(c & -> & Hc)]]]; try lia; try done.
  unfold is_digit in Hc.
  change (char_code "0") with 48. change (char_code "9") with 57.
  by rewrite Hc.
Qed.

Lemma cl_digits_run start (ds : list ascii) : forall fuel k acc,
  readable m (data + start + k) ds ->
  Forall (fun c => is_digit c = true) ds ->
  k + Z.of_nat (length ds) <= 10 ->
  start + k + Z.of_nat (length ds) <= data_len ->
  (length ds <= fuel)%nat ->
  cl_digits m data data_len start fuel k acc
  = cl_digits m data data_len start (fuel - length ds)
      (k + Z.of_nat (length ds)) (accumulate ds acc).
Proof.
  induction ds as [|c ds IH]; intros fuel k acc Hr Hd Hk Hlen Hf;
    simpl length in *.
  - simpl. by rewrite Nat.sub_0_r, Z.add_0_r.
  - destruct fuel as [|fuel]; [lia|]. simpl.
    do 2 ltb_true. simpl. destruct Hr as [Hc Hr].
    unfold bpf_probe_read_user. rewrite Hc.
    inversion Hd as [|? ? Hdc Hd']; subst.
    change (char_code "0") with 48. change (char_code "9") with 57.
    unfold is_digit in Hdc. rewrite Hdc.
    rewrite IH; try done; try lia.
    + f_equal. lia.
    + by rewrite <- Z.add_assoc in Hr.
Qed.

Lemma cl_digits_ext (m' : umem) data' start : forall fuel k acc,
  0 <= k ->
  (forall j, 0 <= j < 10 -> start + j < data_len ->
             m (data + start + j) = m' (data' + start + j)) ->
  cl_digits m data data_len start fuel k acc
  = cl_digits m' data' data_len start fuel k acc.
Proof.
  induction fuel as [|fuel IH]; intros k acc Hk Hs; simpl; [done|].
  destruct (Z.ltb_spec k 10), (Z.ltb_spec (start + k) data_len);
    simpl; try done.
  unfold bpf_probe_read_user. rewrite <- (Hs k) by lia.
  destruct (m (data + start + k)); [|done].
  case_match; [|done]. apply IH; [lia|done].
Qed.

Lemma parse_content_length_loop_skip (n : nat) : forall fuel i,
  (forall j, i <= j < i + Z.of_nat n ->
             cl_header_cmp m (data + j) cl_header = CmpMismatch) ->
  i + Z.of_nat n <= HTTP_HEADER_SIZE ->
  i + Z.of_nat n <= data_len - cl_header_len ->
  (n <= fuel)%nat ->
  parse_content_length_loop m data data_len fuel i
  = parse_content_length_loop m data data_len (fuel - n) (i + Z.of_nat n).
Proof.
  induction n as [|n IH]; intros fuel i Hmis HB HL Hf.
  - by rewrite Nat.sub_0_r, Z.add_0_r.
  - destruct fuel as [|fuel]; [lia|].
    cbn [parse_content_length_loop]. do 2 ltb_true. cbn [andb].
    rewrite Hmis by lia. rewrite IH; try lia.
    + f_equal. lia.
    + intros j Hj. apply Hmis. lia.
Qed.

Lemma parse_content_length_loop_ext (m' : umem) data' : forall fuel i,
  0 <= i -> same_bytes m data m' data' data_len ->
  parse_content_length_loop m data data_len fuel i
  = parse_content_length_loop m' data' data_len fuel i.
Proof.
  induction fuel as [|fuel IH]; intros i Hi Hs; [done|].
  cbn [parse_content_length_loop].
  destruct (Z.ltb_spec i HTTP_HEADER_SIZE),
    (Z.ltb_spec i (data_len - cl_header_len)); cbn [andb]; try done.
  unfold cl_header_len in *.
  rewrite (cl_header_cmp_ext m' cl_header (data + i) (data' + i)).
  2:{ intros j Hj. change (Z.of_nat (length cl_header)) with 16 in Hj.
      rewrite <- !Z.add_assoc. apply Hs. lia. }
  destruct (cl_header_cmp m' (data' + i) cl_header); try done.
  - by apply IH; [lia|].
  - apply cl_digits_ext; [lia|].
    intros j Hj Hlt. rewrite <- !Z.add_assoc. apply Hs. lia.
Qed.
End ContentLength.

Lemma parse_content_length_ext m data m' data' data_len :
  same_bytes m data m' data' data_len ->
  parse_content_length m data data_len = parse_content_length m' data' data_len.
Proof. intros Hs. by apply parse_content_length_loop_ext. Qed.

(** ** Process lifecycle *)

Lemma trace_exit_unmarks_helper ctx h s :
  is_Some (claude_pids s !! wrap32 (tp_pid ctx)) ->
  ringbuf_reserve_ok h = false ->
  claude_pids (trace_exit ctx h s).2 !! wrap32 (tp_pid ctx) = None
  /\ events (trace_exit ctx h s).2 = events s.
Proof.
  intros [t Ht] Hr. split.
  - rewrite trace_exit_pids. apply lookup_delete_eq.
  - unfold trace_exit. rewrite Ht, Hr. cbn [negb snd].
    by rewrite increment_counter_events.
Qed.


(** C9. An exit activation of a tracked pid removes the identity entry
    whatever the ring buffer does.  When the reservation fails the dropped
    counter is incremented, no record is emitted and the entry is deleted
    all the same; when it succeeds one EXIT record is emitted. *)
Theorem trace_exit_unmarks_unconditionally ctx h s :
  is_Some (claude_pids s !! wrap32 (tp_pid ctx)) ->
  let s' := (trace_exit ctx h s).2 in
  claude_pids s' = delete (wrap32 (tp_pid ctx)) (claude_pids s)
  /\ claude_pids s' !! wrap32 (tp_pid ctx) = None
  /\ socket_connections s' = socket_connections s
  /\ (ringbuf_reserve_ok h = false ->
      events s' = events s
      /\ counter_value s' (cpu h) COUNTER_EVENTS_DROPPED
         = wrap64 (counter_value s (cpu h) COUNTER_EVENTS_DROPPED + 1)
      /\ counter_value s' (cpu h) COUNTER_EVENTS_PROCESSED
         = counter_value s (cpu h) COUNTER_EVENTS_PROCESSED)
  /\ (ringbuf_reserve_ok h = true ->
      exists ev, events s' = events s ++ [ev]
                 /\ event_type ev = EVENT_EXIT
                 /\ pid ev = wrap32 (tp_pid ctx)
                 /\ exit_code ev = tp_exit_code ctx).
Proof.
  intros [t Ht] s'. subst s'.
  split; [apply trace_exit_pids|].
  split; [rewrite trace_exit_pids; apply lookup_delete_eq|].
  unfold trace_exit. rewrite Ht.
  destruct (ringbuf_reserve_ok h); cbn [negb snd].
  - split; [by rewrite increment_counter_sockets|].
    split; [done|]. intros _. eexists.
    rewrite increment_counter_events. cbn. done.
  - split; [by rewrite increment_counter_sockets|].
    split; [|done]. intros _.
    rewrite increment_counter_events, counter_value_incremented.
    rewrite counter_value_untouched by (by right).
    done.
Qed.

Lemma trace_exit_unmarks_unconditionally_witness :
  is_Some (claude_pids tracked_state !! wrap32 (tp_pid (exit_ctx 7 0)))
  /\ (trace_exit (exit_ctx 7 0) (host_of "claude" false no_mem no_mem)
        tracked_state).2.(claude_pids) !! 7 = None.
Proof.
  assert (H : is_Some (claude_pids tracked_state
                         !! wrap32 (tp_pid (exit_ctx 7 0))))
    by (vm_compute; eauto).
  split; [exact H|].
  exact (proj1 (proj2 (trace_exit_unmarks_unconditionally
                         (exit_ctx 7 0)
                         (host_of "claude" false no_mem no_mem)
                         tracked_state H))).
Defined.

(** C8. Exit handling is idempotent.  Whatever the state, after one exit
    activation for a pid its entry is gone (the first call removes it if
    it was there), and a second exit activation for the same pid returns
    0, emits nothing and leaves the whole state as it is: both trackers,
    the counters and the ring buffer. *)
Theorem trace_exit_idempotent ctx1 ctx2 h1 h2 s :
  wrap32 (tp_pid ctx2) = wrap32 (tp_pid ctx1) ->
  let s1 := (trace_exit ctx1 h1 s).2 in
  (trace_exit ctx1 h1 s).1 = 0
  /\ claude_pids s1 = delete (wrap32 (tp_pid ctx1)) (claude_pids s)
  /\ trace_exit ctx2 h2 s1 = (0, s1)
  /\ bpf_map_delete_elem (wrap32 (tp_pid ctx1)) (claude_pids s1)
     = claude_pids s1.
Proof.
  intros Hpid s1. subst s1.
  split.
  { unfold trace_exit. by repeat case_match. }
  split; [apply trace_exit_pids|].
  split.
  - apply trace_exit_untracked.
    rewrite trace_exit_pids, Hpid. apply lookup_delete_eq.
  - unfold bpf_map_delete_elem. rewrite trace_exit_pids.
    by rewrite delete_delete_eq.
Qed.

Lemma trace_exit_idempotent_witness :
  let s1 := (trace_exit (exit_ctx 7 0) (host_of "claude" true no_mem no_mem)
               tracked_state).2 in
  trace_exit (exit_ctx 7 1) (host_of "claude" true no_mem no_mem) s1 = (0, s1).
Proof.
  exact (proj1 (proj2 (proj2
    (trace_exit_idempotent (exit_ctx 7 0) (exit_ctx 7 1)
       (host_of "claude" true no_mem no_mem)
       (host_of "claude" true no_mem no_mem) tracked_state eq_refl)))).
Defined.

Lemma bpf_map_update_elem_lookup {V : Type} (n : nat) k (v : V)
    (m : gmap Z V) :
  is_Some (m !! k) \/ (size m < n)%nat ->
  bpf_map_update_elem n k v m !! k = Some v.
Proof.
  intros H. unfold bpf_map_update_elem.
  destruct (m !! k) eqn:Hk; [by rewrite lookup_insert_eq|].
  destruct H as [[? ?]|H]; [done|].
  rewrite (proj2 (Nat.ltb_lt _ _)) by done. by rewrite lookup_insert_eq.
Qed.

Lemma bpf_map_update_elem_full {V : Type} (n : nat) k (v : V)
    (m : gmap Z V) :
  m !! k = None -> (n <= size m)%nat -> bpf_map_update_elem n k v m = m.
Proof.
  intros Hk H. unfold bpf_map_update_elem. rewrite Hk.
  by rewrite (proj2 (Nat.ltb_ge _ _)).
Qed.

(** C10. A matching exec marks the pid only after the ring-buffer
    reservation has succeeded.  When the reservation fails, the handler
    changes the execve-calls and dropped counters and nothing else: the
    identity tracker is as before, so a pid that was not tracked stays
    untracked and its later connect, write and exit activations are
    ignored.  When the reservation succeeds the entry is written and an
    EXEC record is emitted.  The exit handler, by contrast, removes the
    entry also when its reservation fails. *)
Theorem trace_execve_marks_only_after_reserve ctx h s (name : list ascii) :
  current_task h <> 0 ->
  current_comm h = Some name ->
  is_claude_process name = true ->
  let s' := (trace_execve ctx h s).2 in
  (ringbuf_reserve_ok h = false ->
     s' = increment_counter (cpu h) COUNTER_EVENTS_DROPPED
            (increment_counter (cpu h) COUNTER_EXECVE_CALLS s)
     /\ claude_pids s' = claude_pids s
     /\ socket_connections s' = socket_connections s
     /\ events s' = events s
     /\ counter_value s' (cpu h) COUNTER_EXECVE_CALLS
        = wrap64 (counter_value s (cpu h) COUNTER_EXECVE_CALLS + 1)
     /\ counter_value s' (cpu h) COUNTER_EVENTS_DROPPED
        = wrap64 (counter_value s (cpu h) COUNTER_EVENTS_DROPPED + 1)
     /\ (forall c k,
           c <> cpu h
           \/ (k <> COUNTER_EXECVE_CALLS /\ k <> COUNTER_EVENTS_DROPPED) ->
           counter_value s' c k = counter_value s c k)
     /\ (claude_pids s !! current_pid h = None ->
         (forall ctx' h', current_pid h' = current_pid h ->
            trace_connect ctx' h' s' = (0, s')
            /\ trace_write ctx' h' s' = (0, s'))
         /\ (forall ctx' h', wrap32 (tp_pid ctx') = current_pid h ->
               trace_exit ctx' h' s' = (0, s'))))
  /\ (ringbuf_reserve_ok h = true ->
      claude_pids s'
      = bpf_map_update_elem claude_pids_max_entries (current_pid h)
          (ktime_ns h) (claude_pids s)
      /\ (is_Some (claude_pids s !! current_pid h)
          \/ (size (claude_pids s) < claude_pids_max_entries)%nat ->
          claude_pids s' !! current_pid h = Some (ktime_ns h))
      /\ exists ev, events s' = events s ++ [ev]
                    /\ event_type ev = EVENT_EXEC
                    /\ pid ev = current_pid h)
  /\ (forall ctx' h',
        is_Some (claude_pids s !! wrap32 (tp_pid ctx')) ->
        ringbuf_reserve_ok h' = false ->
        claude_pids (trace_exit ctx' h' s).2 !! wrap32 (tp_pid ctx') = None
        /\ events (trace_exit ctx' h' s).2 = events s).
Proof.
  intros Htask Hcomm Hname s'. subst s'. unfold trace_execve.
  rewrite (proj2 (Z.eqb_neq _ _) Htask), Hcomm, Hname. cbn [negb].
  split; [|split].
  - intros Hr. rewrite Hr. cbn [negb snd].
    set (s1 := increment_counter (cpu h) COUNTER_EXECVE_CALLS s).
    assert (Hp : claude_pids
                   (increment_counter (cpu h) COUNTER_EVENTS_DROPPED s1)
                 = claude_pids s)
      by (subst s1; by rewrite !increment_counter_pids).
    split; [done|]. split; [done|].
    split; [subst s1; by rewrite !increment_counter_sockets|].
    split; [subst s1; by rewrite !increment_counter_events|].
    split.
    { rewrite counter_value_untouched by (by right). subst s1.
      apply counter_value_incremented. }
    split.
    { rewrite counter_value_incremented. subst s1.
      by rewrite counter_value_untouched by (by right). }
    split.
    { intros c k Hck. subst s1.
      rewrite !counter_value_untouched; [done| |];
        destruct Hck as [?|[? ?]]; auto. }
    intros Hnone. split.
    + intros ctx' h' Hpid. split.
      * apply trace_connect_untracked. by rewrite Hp, Hpid.
      * apply trace_write_untracked. by rewrite Hp, Hpid.
    + intros ctx' h' Hpid. apply trace_exit_untracked. by rewrite Hp, Hpid.
  - intros Hr. rewrite Hr. cbn [negb snd].
    rewrite increment_counter_pids, increment_counter_events. cbn.
    split; [done|]. split.
    + apply bpf_map_update_elem_lookup.
    + eexists. by split.
  - intros ctx' h' Htr Hr.
    destruct (trace_exit_unmarks_helper ctx' h' s Htr Hr) as [? ?]. done.
Qed.

Lemma trace_execve_marks_only_after_reserve_witness :
  let h := host_of "claude" false no_mem no_mem in
  let s' := (trace_execve (exec_ctx 0) h empty_state).2 in
  claude_pids s' = claude_pids empty_state
  /\ events s' = [].
Proof.
  intros h s'.
  assert (Htask : current_task h <> 0) by (vm_compute; discriminate).
  destruct (trace_execve_marks_only_after_reserve (exec_ctx 0) h empty_state
              (comm_of "claude") Htask eq_refl eq_refl) as [Hfail _].
  destruct (Hfail eq_refl) as (_ & Hp & _ & He & _).
  exact (conj Hp He).
Defined.

(** C1 (evaluation at a failing input).  The filter compares the first
    six bytes only, so a process named "claude-helper", which is not the
    target literal, passes it: the exec handler emits an EXEC record for
    it and enters its pid in the identity tracker. *)
Theorem trace_execve_tracks_prefixed_name :
  let h := host_of "claude-helper" true
             (mem_of 8192 (chars "/usr/bin/claude-helper" ++ [NUL])) no_mem in
  let s' := (trace_execve (exec_ctx 8192) h empty_state).2 in
  comm_of "claude-helper" <> comm_of "claude"
  /\ is_claude_process (comm_of "claude-helper") = true
  /\ claude_pids s' !! 7 = Some 200
  /\ exists ev, events s' = [ev]
                /\ event_type ev = EVENT_EXEC
                /\ pid ev = 7
                /\ comm ev = comm_of "claude-helper"
                /\ path ev = padded 256 (chars "/usr/bin/claude-helper").
Proof.
  intros h s'. split; [by vm_compute|]. split; [by vm_compute|].
  split; [by vm_compute|]. eexists. by vm_compute.
Qed.

(** The filter is a six-byte prefix test. *)
Lemma trace_execve_prefix_filter ctx h s (name : list ascii) :
  current_comm h = Some name ->
  take 6 name <> chars CLAUDE_COMM ->
  trace_execve ctx h s = (0, s).
Proof.
  intros Hc Hne. apply (trace_execve_filtered ctx h s name Hc).
  destruct (is_claude_process name) eqn:E; [|done].
  by apply is_claude_process_prefix in E.
Qed.

(** ** Method extraction *)

(** C6 (amended).  With the capacity-8 output, method extraction rejects
    every buffer of fewer than 8 bytes.  For a length of at least 8 it
    scans the first 8 bytes: it succeeds exactly when a space occurs among
    them and every byte before that space can be probed, and it then
    returns the offset of the space and leaves the bytes before it,
    NUL-terminated, in the output.  It fails otherwise: no space within
    the bound, or a probe fault before one. *)
Theorem parse_http_method_contract m data data_len (out : list ascii) :
  length out = 8%nat ->
  (data_len < 8 -> parse_http_method m data data_len out 8 = (-1, out))
  /\ (forall cs : list ascii,
        8 <= data_len -> token_at m data cs -> Z.of_nat (length cs) < 8 ->
        parse_http_method m data data_len out 8
        = (Z.of_nat (length cs), cs ++ NUL :: drop (S (length cs)) out))
  /\ ((parse_http_method m data data_len out 8).1 = -1 <->
      data_len < 8
      \/ ~ exists cs : list ascii,
             token_at m data cs /\ Z.of_nat (length cs) < 8)
  /\ (forall cs : list ascii,
        fault_at m data cs -> Z.of_nat (length cs) < 8 ->
        (parse_http_method m data data_len out 8).1 = -1).
Proof.
  intros Hout. split; [apply parse_http_method_short|].
  split.
  { intros cs Hd Ht Hcs. apply parse_http_method_token; try done; lia. }
  split; [|intros cs; apply parse_http_method_fault].
  split.
  - intros Hfail. destruct (Z.lt_ge_cases data_len 8) as [?|Hd]; [by left|].
    right. intros (cs & Ht & Hcs).
    rewrite (parse_http_method_token m data data_len out 8 cs) in Hfail;
      try done; try lia.
    simpl in Hfail. lia.
  - intros [Hshort|Hno].
    + by rewrite parse_http_method_short.
    + destruct (Z.eq_dec (parse_http_method m data data_len out 8).1 (-1))
        as [?|Hne]; [done|].
      apply parse_http_method_inv in Hne as (_ & _ & cs & Ht & Hcs & _).
      destruct Hno. by exists cs.
Qed.

Lemma parse_http_method_contract_witness :
  parse_http_method (mem_of 4096 (chars "POST /v1/complete HTTP/1.1")) 4096 26
    (replicate 8 NUL) 8
  = (4, padded 8 (chars "POST")).
Proof.
  assert (Ht : token_at (mem_of 4096 (chars "POST /v1/complete HTTP/1.1"))
                 4096 (chars "POST")).
  { split; [|split].
    - vm_compute. tauto.
    - repeat constructor; discriminate.
    - by vm_compute. }
  exact (proj1 (proj2 (parse_http_method_contract
                         (mem_of 4096 (chars "POST /v1/complete HTTP/1.1"))
                         4096 26 (replicate 8 NUL) eq_refl))
           (chars "POST") ltac:(lia) Ht ltac:(simpl; lia)).
Defined.

(** C6 (counterexample).  The five-byte buffer "GET /" has a space at
    offset 3, inside the first min(8, 5) bytes, and extraction fails. *)
Lemma parse_http_method_short_buffer_fails :
  let m := mem_of 4096 (chars "GET /") in
  token_at m 4096 (chars "GET")
  /\ Z.of_nat (length (chars "GET")) < Z.min 8 5
  /\ (parse_http_method m 4096 5 (replicate 8 NUL) 8).1 = -1.
Proof.
  intros m. split; [|split]; [|by vm_compute|by vm_compute].
  split; [|split].
  - vm_compute. tauto.
  - repeat constructor; discriminate.
  - by vm_compute.
Qed.

(** ** Content-Length: the header search and the accumulator *)

Lemma parse_content_length_loop_S m data data_len fuel i :
  parse_content_length_loop m data data_len (S fuel) i
  = if (i <? HTTP_HEADER_SIZE) && (i <? data_len - cl_header_len) then
      match cl_header_cmp m (data + i) cl_header with
      | CmpFault => 0
      | CmpMatch => cl_digits m data data_len (i + cl_header_len) 10 0 0
      | CmpMismatch => parse_content_length_loop m data data_len fuel (i + 1)
      end
    else 0.
Proof. reflexivity. Qed.

Arguments cl_digits : simpl never.
Arguments parse_content_length_loop : simpl never.
Arguments cl_header_cmp : simpl never.

Lemma parse_content_length_reaches m data data_len i :
  search_reaches m data data_len i ->
  parse_content_length m data data_len
  = match cl_header_cmp m (data + i) cl_header with
    | CmpFault => 0
    | CmpMatch => cl_digits m data data_len (i + cl_header_len) 10 0 0
    | CmpMismatch =>
        parse_content_length_loop m data data_len (511 - Z.to_nat i) (i + 1)
    end.
Proof.
  intros (Hi & HL & Hmis). unfold parse_content_length.
  unfold HTTP_HEADER_SIZE in *.
  rewrite (parse_content_length_loop_skip m data data_len (Z.to_nat i));
    unfold HTTP_HEADER_SIZE; try lia.
  2:{ intros j Hj. apply Hmis. lia. }
  replace (0 + Z.of_nat (Z.to_nat i)) with i by lia.
  replace (512 - Z.to_nat i)%nat with (S (511 - Z.to_nat i)) by lia.
  rewrite parse_content_length_loop_S. unfold HTTP_HEADER_SIZE.
  by do 2 ltb_true.
Qed.

Lemma parse_content_length_header m data data_len i :
  header_at m data data_len i ->
  parse_content_length m data data_len
  = cl_digits m data data_len (i + cl_header_len) 10 0 0.
Proof.
  intros [Hreach Hr]. rewrite (parse_content_length_reaches _ _ _ i Hreach).
  by rewrite cl_header_cmp_match.
Qed.

Lemma cl_digits_value m data data_len start (ds : list ascii) :
  readable m (data + start) ds -> all_digits ds ->
  Z.of_nat (length ds) <= 10 ->
  start + Z.of_nat (length ds) <= data_len ->
  (Z.of_nat (length ds) = 10 \/ data_len <= start + Z.of_nat (length ds)
   \/ m (data + start + Z.of_nat (length ds)) = None
   \/ exists c, m (data + start + Z.of_nat (length ds)) = Some c
                /\ is_digit c = false) ->
  cl_digits m data data_len start 10 0 0 = wrap32 (decimal ds 0).
Proof.
  intros Hr Hd Hlen Hfit Hstop.
  rewrite (cl_digits_run m data data_len start ds); try done; try lia.
  2:{ by rewrite Z.add_0_r. }
  rewrite Z.add_0_l, cl_digits_end.
  - apply accumulate_decimal. lia.
  - destruct Hstop as [?|[?|[?|?]]]; [left; lia|right; left; lia|auto..].
Qed.

Lemma decimal_lt_wrap (ds : list ascii) :
  all_digits ds -> Z.of_nat (length ds) < 10 ->
  wrap32 (decimal ds 0) = decimal ds 0.
Proof.
  intros Hd Hlen. apply wrap32_small.
  pose proof (decimal_bound ds Hd) as Hb.
  assert (10 ^ Z.of_nat (length ds) <= 10 ^ 9)
    by (apply Z.pow_le_mono_r; lia).
  lia.
Qed.

(** C7.  After the header literal the accumulator reads at most ten
    digit bytes.  On the ten digits "0000000042" it yields 42 whatever
    follows them, an eleventh digit included.  In general the value is the
    decimal number written by the first ten digits, reduced modulo 2^32 as
    the 32-bit [content_len] wraps, and it does not depend on any byte
    after the tenth; with fewer than ten digits the accumulation stops at
    the first byte that is not a digit (or at the end of the data). *)
Theorem content_length_ten_digit_cap :
  (forall base (tail : list ascii) data_len,
     26 <= data_len ->
     parse_content_length
       (mem_of base (chars "Content-Length: 0000000042" ++ tail))
       base data_len = 42)
  /\ (forall m data data_len i (ds : list ascii),
        header_at m data data_len i ->
        readable m (data + (i + cl_header_len)) ds ->
        all_digits ds -> length ds = 10%nat ->
        i + cl_header_len + 10 <= data_len ->
        parse_content_length m data data_len = wrap32 (decimal ds 0))
  /\ (forall m data data_len i (ds : list ascii),
        header_at m data data_len i ->
        readable m (data + (i + cl_header_len)) ds ->
        all_digits ds -> Z.of_nat (length ds) < 10 ->
        i + cl_header_len + Z.of_nat (length ds) <= data_len ->
        (data_len <= i + cl_header_len + Z.of_nat (length ds)
         \/ exists c,
              m (data + (i + cl_header_len) + Z.of_nat (length ds)) = Some c
              /\ is_digit c = false) ->
        parse_content_length m data data_len = decimal ds 0)
  /\ (forall m m' data data_len start,
        (forall k, 0 <= k < 10 ->
                   m (data + start + k) = m' (data + start + k)) ->
        cl_digits m data data_len start 10 0 0
        = cl_digits m' data data_len start 10 0 0).
Proof.
  split; [|split; [|split]].
  - intros base tail data_len Hlen.
    set (m := mem_of base _).
    assert (Hh : header_at m base data_len 0).
    { split.
      - unfold search_reaches, HTTP_HEADER_SIZE, cl_header_len.
        repeat split; try lia.
      - exact (readable_mem_of base [] cl_header
                 (chars "0000000042" ++ tail)). }
    rewrite (parse_content_length_header _ _ _ 0 Hh).
    rewrite (cl_digits_value _ _ _ _ (chars "0000000042")).
    + by vm_compute.
    + exact (readable_mem_of base cl_header (chars "0000000042") tail).
    + repeat constructor.
    + simpl. lia.
    + unfold cl_header_len. simpl. lia.
    + by left.
  - intros m data data_len i ds Hh Hr Hd Hlen Hfit.
    rewrite (parse_content_length_header _ _ _ i Hh).
    apply cl_digits_value; try done; try lia.
  - intros m data data_len i ds Hh Hr Hd Hlen Hfit Hstop.
    rewrite (parse_content_length_header _ _ _ i Hh).
    rewrite (cl_digits_value _ _ _ _ ds); try done; try lia.
    + by apply decimal_lt_wrap.
    + destruct Hstop as [?|?]; auto.
  - intros m m' data data_len start Hsame.
    apply cl_digits_ext; [lia|]. intros j Hj _. by apply Hsame.
Qed.

Lemma content_length_ten_digit_cap_witness :
  parse_content_length
    (mem_of 4096 (chars "Content-Length: 42949672981")) 4096 27
  = 2.
Proof.
  assert (Hh : header_at (mem_of 4096 (chars "Content-Length: 42949672981"))
                 4096 27 0).
  { split.
    - unfold search_reaches, HTTP_HEADER_SIZE, cl_header_len.
      repeat split; try lia.
    - exact (readable_mem_of 4096 [] cl_header (chars "42949672981")). }
  exact (proj1 (proj2 content_length_ten_digit_cap)
           (mem_of 4096 (chars "Content-Length: 42949672981")) 4096 27 0
           (chars "4294967298") Hh
           (readable_mem_of 4096 cl_header (chars "4294967298") (chars "1"))
           ltac:(repeat constructor) eq_refl ltac:(vm_compute; discriminate)).
Defined.

(** ** The write handler *)

Lemma padded_terminated (cap : nat) (cs : list ascii) :
  (length cs < cap)%nat ->
  cs ++ NUL :: drop (S (length cs)) (replicate cap NUL) = padded cap cs.
Proof.
  intros H. unfold padded. f_equal. rewrite drop_replicate.
  by replace (cap - length cs)%nat with (S (cap - S (length cs))) by lia.
Qed.

Lemma token_in_buffer m p (pre cs post : list ascii) :
  readable m p (pre ++ cs ++ SP :: post) -> no_space cs ->
  token_at m (p + Z.of_nat (length pre)) cs.
Proof.
  intros Hr Hns.
  apply readable_app in Hr as [_ Hr]. apply readable_app in Hr as [Hcs Hr].
  split; [done|]. split; [done|]. by destruct Hr.
Qed.

Lemma fault_past_buffer base (pre cs : list ascii) :
  no_space cs ->
  fault_at (mem_of base (pre ++ cs)) (base + Z.of_nat (length pre)) cs.
Proof.
  intros Hns. split; [|split; [done|]].
  - rewrite <- (app_nil_r cs) at 1. apply readable_mem_of.
  - rewrite <- Z.add_assoc, mem_of_lookup by lia.
    apply lookup_ge_None. rewrite length_app. lia.
Qed.

Lemma write_outcome_events h s ev :
  events (write_outcome h s ev)
  = if ringbuf_reserve_ok h then events s ++ [ev] else events s.
Proof.
  unfold write_outcome. destruct (ringbuf_reserve_ok h);
    by rewrite !increment_counter_events.
Qed.

Section WriteGate.
Variables (ctx : trace_event_raw_sys_enter) (h : host) (s : bpf_state).
Variables (t : Z) (si : socket_info).
Hypothesis Htracked : claude_pids s !! current_pid h = Some t.
Hypothesis Hsock : socket_connections s !! wrap32 (arg ctx 0) = Some si.
Hypothesis Hcount : 16 <= arg ctx 2 <= 512.

Let m := user_mem h.
Let buf := arg ctx 1.
Let count := arg ctx 2.

Lemma trace_write_gate :
  trace_write ctx h s
  = let '(method_len, method) :=
      parse_http_method m buf count (replicate 8 NUL) 8 in
    if method_len <? 3 then (0, s)
    else
      let '(uri_len, uri) :=
        parse_http_uri m buf count method_len (replicate 128 NUL) 128 in
      if uri_len <? 1 then (0, s)
      else
        (0, write_outcome h s
              (mk_event (ktime_ns h) (current_pid h) 0 (current_uid h)
                 EVENT_HTTP_REQUEST (si_target_addr si)
                 (si_target_port si) 0 (comm_or_zero h)
                 (replicate 256 NUL) method uri
                 (parse_content_length m buf count) (wrap32 (arg ctx 0)))).
Proof.
  unfold trace_write. rewrite Htracked, Hsock.
  unfold HTTP_HEADER_SIZE. ltb_false.
  destruct (Z.gtb_spec (arg ctx 2) 512); [lia|]. cbn [orb].
  rewrite to_int_id by lia. fold m buf count.
  destruct (parse_http_method m buf count (replicate 8 NUL) 8)
    as [method_len method].
  destruct (method_len <? 3); [done|].
  destruct (parse_http_uri m buf count method_len (replicate 128 NUL) 128)
    as [uri_len uri].
  destruct (uri_len <? 1); [done|].
  unfold write_outcome. by destruct (ringbuf_reserve_ok h).
Qed.

Lemma trace_write_request_line (method uri : list ascii) :
  request_line m buf count method uri ->
  trace_write ctx h s
  = (0, write_outcome h s
          (http_request_event ctx h si method uri
             (parse_content_length m buf count))).
Proof.
  intros (Hm & Hml & Hu & Hul & Hfit). rewrite trace_write_gate.
  rewrite (parse_http_method_token m buf count _ 8 method);
    try done; try lia.
  ltb_false.
  rewrite (parse_http_uri_token m buf count _ _ 128 uri);
    try done; try lia; [|rewrite length_replicate; lia].
  ltb_false.
  rewrite !padded_terminated by lia. done.
Qed.

Lemma trace_write_method_rejected :
  (parse_http_method m buf count (replicate 8 NUL) 8).1 < 3 ->
  trace_write ctx h s = (0, s).
Proof.
  intros H. rewrite trace_write_gate.
  destruct (parse_http_method _ _ _ _ _) as [ml me]. simpl in H.
  by ltb_true.
Qed.

Lemma trace_write_uri_rejected (method : list ascii) :
  token_at m buf method -> Z.of_nat (length method) < 8 ->
  (parse_http_uri m buf count (Z.of_nat (length method))
     (replicate 128 NUL) 128).1 < 1 ->
  trace_write ctx h s = (0, s).
Proof.
  intros Ht Hl H. rewrite trace_write_gate.
  rewrite (parse_http_method_token m buf count _ 8 method);
    try done; try lia.
  destruct (_ <? 3); [done|].
  destruct (parse_http_uri _ _ _ _ _ _) as [ul ur]. simpl in H.
  by ltb_true.
Qed.

Lemma trace_write_no_request_line :
  ~ (exists method uri : list ascii, request_line m buf count method uri) ->
  trace_write ctx h s = (0, s).
Proof.
  intros Hno.
  destruct (Z.lt_ge_cases
              (parse_http_method m buf count (replicate 8 NUL) 8).1 3)
    as [?|Hml]; [by apply trace_write_method_rejected|].
  destruct (parse_http_method_inv m buf count (replicate 8 NUL) 8)
    as (_ & _ & method & Ht & Hl & Hfst); [lia|].
  destruct (Z.lt_ge_cases
              (parse_http_uri m buf count (Z.of_nat (length method))
                 (replicate 128 NUL) 128).1 1)
    as [?|Hul]; [by apply (trace_write_uri_rejected method)|].
  destruct (parse_http_uri_inv m buf count (Z.of_nat (length method))
              (replicate 128 NUL) 128)
    as (uri & Hu & Hlu & Hfit & _ & _); [lia|].
  destruct Hno. exists method, uri. unfold request_line.
  split; [done|]. split; [lia|]. split; [done|]. split; lia.
Qed.
End WriteGate.

(** C2 (amended).  For a write activation that passes the gate, a record
    is emitted exactly when the buffer starts with a request line whose
    method has at least three bytes: the method token ends at a space
    within the first 8 bytes and is 3 to 7 bytes long, and a non-empty URI
    token follows within its bounds.  The record then carries the parsed
    method, URI and content length and the correlated destination,
    subject only to the ring-buffer reservation; without such a request
    line the handler leaves the state as it is. *)
Theorem trace_write_emits_iff_request_line ctx h s t si :
  claude_pids s !! current_pid h = Some t ->
  socket_connections s !! wrap32 (arg ctx 0) = Some si ->
  16 <= arg ctx 2 <= 512 ->
  (forall method uri : list ascii,
     request_line (user_mem h) (arg ctx 1) (arg ctx 2) method uri ->
     let ev := http_request_event ctx h si method uri
                 (parse_content_length (user_mem h) (arg ctx 1) (arg ctx 2)) in
     trace_write ctx h s = (0, write_outcome h s ev)
     /\ (ringbuf_reserve_ok h = true ->
         events (trace_write ctx h s).2 = events s ++ [ev])
     /\ (ringbuf_reserve_ok h = false ->
         events (trace_write ctx h s).2 = events s))
  /\ (~ (exists method uri : list ascii,
           request_line (user_mem h) (arg ctx 1) (arg ctx 2) method uri) ->
      trace_write ctx h s = (0, s)).
Proof.
  intros Ht Hs Hc. split.
  - intros method uri Hrl ev.
    rewrite (trace_write_request_line ctx h s t si Ht Hs Hc method uri Hrl).
    cbn [snd]. rewrite write_outcome_events.
    split; [done|]. split; intros ->; done.
  - by apply (trace_write_no_request_line ctx h s t si).
Qed.

Lemma request_line_request m buf :
  readable m buf request ->
  request_line m buf 49 (chars "GET") (chars "/v1/messages").
Proof.
  intros Hr. unfold request_line.
  split; [|split; [simpl; lia|split; [|simpl; lia]]].
  - rewrite <- (Z.add_0_r buf).
    apply (token_in_buffer m buf [] (chars "GET") (drop 4 request)); [done|].
    repeat constructor; discriminate.
  - replace (buf + Z.of_nat (length (chars "GET")) + 1)
      with (buf + Z.of_nat (length (take 4 request))) by (simpl; lia).
    apply (token_in_buffer m buf (take 4 request) (chars "/v1/messages")
             (drop 17 request)); [done|].
    repeat constructor; discriminate.
Qed.

Lemma readable_mem_of_all base (bs : list ascii) :
  readable (mem_of base bs) base bs.
Proof.
  pose proof (readable_mem_of base [] bs []) as H.
  simpl in H. by rewrite app_nil_r, Z.add_0_r in H.
Qed.

Lemma trace_write_emits_iff_request_line_witness :
  let h := host_of "claude" true (mem_of 4096 request) no_mem in
  let ctx := write_ctx 5 4096 49 in
  events (trace_write ctx h tracked_state).2
  = [http_request_event ctx h (mk_socket_info 7 16909060 443 150)
       (chars "GET") (chars "/v1/messages")
       (parse_content_length (user_mem h) 4096 49)].
Proof.
  intros h ctx.
  assert (Hc : 16 <= arg ctx 2 <= 512) by (vm_compute; split; discriminate).
  exact (proj1 (proj2 (proj1
    (trace_write_emits_iff_request_line ctx h tracked_state 100
       (mk_socket_info 7 16909060 443 150) eq_refl eq_refl Hc)
    (chars "GET") (chars "/v1/messages")
    (request_line_request _ _ (readable_mem_of_all 4096 request)))) eq_refl).
Defined.

(** C2 (counterexample).  The write passes the gate, method extraction
    succeeds with the two-byte method "AB", URI extraction succeeds, the
    ring buffer has room, and the handler emits nothing. *)
Lemma trace_write_two_byte_method_dropped :
  let h := host_of "claude" true (mem_of 4096 short_method_request) no_mem in
  let ctx := write_ctx 5 4096 28 in
  claude_pids tracked_state !! current_pid h = Some 100
  /\ is_Some (socket_connections tracked_state !! wrap32 (arg ctx 0))
  /\ 16 <= arg ctx 2 <= 512
  /\ token_at (user_mem h) 4096 (chars "AB")
  /\ parse_http_method (user_mem h) 4096 28 (replicate 8 NUL) 8
     = (2, padded 8 (chars "AB"))
  /\ parse_http_uri (user_mem h) 4096 28 2 (replicate 128 NUL) 128
     = (12, padded 128 (chars "/v1/messages"))
  /\ ringbuf_reserve_ok h = true
  /\ events (trace_write ctx h tracked_state).2 = []
  /\ trace_write ctx h tracked_state = (0, tracked_state).
Proof.
  intros h ctx.
  split; [by vm_compute|]. split; [by vm_compute; eauto|].
  split; [by vm_compute|]. split.
  { rewrite <- (Z.add_0_r 4096).
    apply (token_in_buffer _ 4096 [] (chars "AB")
             (drop 3 short_method_request)).
    - apply readable_mem_of_all.
    - repeat constructor; discriminate. }
  split; [by vm_compute|]. split; [by vm_compute|].
  split; [done|]. split; by vm_compute.
Qed.

(** ** The worked example *)

Lemma same_bytes_readable m buf (bs : list ascii) :
  readable m buf bs ->
  same_bytes m buf (mem_of 0 bs) 0 (Z.of_nat (length bs)).
Proof.
  intros Hr j Hj.
  destruct (lookup_lt_is_Some_2 bs (Z.to_nat j)) as [c Hc]; [lia|].
  rewrite mem_of_lookup, Hc by lia.
  rewrite readable_lookup in Hr. rewrite <- (Hr _ _ Hc). f_equal. lia.
Qed.

(** C3 (amended).  For a write of the 49-byte example request by a
    tracked pid on a correlated descriptor, the parser yields method
    "GET", URI "/v1/messages" and content length 42.  When the ring-buffer
    reservation succeeds, one HTTP_REQUEST record is emitted with those
    fields and the address and port stored in the correlation entry; when
    it fails, no record is emitted and the request is counted as
    dropped. *)
Theorem trace_write_worked_example ctx h s t si :
  claude_pids s !! current_pid h = Some t ->
  socket_connections s !! wrap32 (arg ctx 0) = Some si ->
  readable (user_mem h) (arg ctx 1) request ->
  arg ctx 2 = 49 ->
  let ev := http_request_event ctx h si (chars "GET") (chars "/v1/messages")
              42 in
  parse_http_method (user_mem h) (arg ctx 1) 49 (replicate 8 NUL) 8
  = (3, padded 8 (chars "GET"))
  /\ parse_http_uri (user_mem h) (arg ctx 1) 49 3 (replicate 128 NUL) 128
     = (12, padded 128 (chars "/v1/messages"))
  /\ parse_content_length (user_mem h) (arg ctx 1) 49 = 42
  /\ target_addr ev = si_target_addr si
  /\ target_port ev = si_target_port si
  /\ event_type ev = EVENT_HTTP_REQUEST
  /\ (ringbuf_reserve_ok h = true ->
      (trace_write ctx h s).2
      = increment_counter (cpu h) COUNTER_EVENTS_PROCESSED
          (bpf_ringbuf_submit ev
             (increment_counter (cpu h) COUNTER_HTTP_REQUESTS s))
      /\ events (trace_write ctx h s).2 = events s ++ [ev])
  /\ (ringbuf_reserve_ok h = false ->
      (trace_write ctx h s).2
      = increment_counter (cpu h) COUNTER_EVENTS_DROPPED
          (increment_counter (cpu h) COUNTER_HTTP_REQUESTS s)
      /\ events (trace_write ctx h s).2 = events s).
Proof.
  intros Ht Hs Hr Hc ev.
  pose proof (same_bytes_readable _ _ _ Hr) as Hsame.
  change (Z.of_nat (length request)) with 49 in Hsame.
  assert (Hcl : parse_content_length (user_mem h) (arg ctx 1) 49 = 42).
  { rewrite (parse_content_length_ext _ _ _ _ _ Hsame). by vm_compute. }
  split.
  { rewrite (parse_http_method_ext _ _ _ _ _ _ _ Hsame). by vm_compute. }
  split.
  { rewrite (parse_http_uri_ext (user_mem h) (mem_of 0 request)
               (arg ctx 1) 0 49 3); [by vm_compute|lia|done]. }
  split; [done|]. do 3 (split; [done|]).
  assert (Hcount : 16 <= arg ctx 2 <= 512) by lia.
  pose proof (request_line_request _ _ Hr) as Hrl.
  rewrite <- Hc in Hrl.
  rewrite (trace_write_request_line ctx h s t si Ht Hs Hcount _ _ Hrl).
  rewrite Hc, Hcl. cbn [snd]. fold ev.
  rewrite write_outcome_events. unfold write_outcome.
  split; intros ->; done.
Qed.

Lemma trace_write_worked_example_witness :
  let h := host_of "claude" true (mem_of 4096 request) no_mem in
  let ctx := write_ctx 5 4096 49 in
  parse_content_length (user_mem h) (arg ctx 1) 49 = 42
  /\ events (trace_write ctx h tracked_state).2
     = [http_request_event ctx h (mk_socket_info 7 16909060 443 150)
          (chars "GET") (chars "/v1/messages") 42].
Proof.
  intros h ctx.
  destruct (trace_write_worked_example ctx h tracked_state 100
              (mk_socket_info 7 16909060 443 150) eq_refl eq_refl
              (readable_mem_of_all 4096 request) eq_refl)
    as (_ & _ & Hcl & _ & _ & _ & Hok & _).
  exact (conj Hcl (proj2 (Hok eq_refl))).
Defined.

(** C3 (counterexample).  The same write while the ring buffer is full:
    the pid is tracked, the descriptor is correlated, the buffer is the
    example request, and no record is emitted. *)
Lemma trace_write_worked_example_ring_full :
  let h := host_of "claude" false (mem_of 4096 request) no_mem in
  let ctx := write_ctx 5 4096 49 in
  is_Some (claude_pids tracked_state !! current_pid h)
  /\ is_Some (socket_connections tracked_state !! wrap32 (arg ctx 0))
  /\ readable (user_mem h) (arg ctx 1) request
  /\ arg ctx 2 = 49
  /\ events (trace_write ctx h tracked_state).2 = []
  /\ counter_value (trace_write ctx h tracked_state).2 0
       COUNTER_EVENTS_DROPPED = 1.
Proof.
  intros h ctx.
  split; [by vm_compute; eauto|]. split; [by vm_compute; eauto|].
  split; [apply readable_mem_of_all|].
  split; [done|]. split; by vm_compute.
Qed.

(** ** Probe faults during parsing *)

(** C4 (amended).  A probe fault met by the method scan or by the URI
    scan aborts the scan, the extraction returns -1 and the write handler
    emits nothing.  Content-length extraction has no failure result: once
    method and URI are parsed the record is emitted (the reservation
    permitting), carrying 0 when the fault occurs while the header is
    searched and the value of the digits read so far when it occurs among
    the digits. *)
Theorem probe_fault_handling ctx h s t si :
  claude_pids s !! current_pid h = Some t ->
  socket_connections s !! wrap32 (arg ctx 0) = Some si ->
  16 <= arg ctx 2 <= 512 ->
  let m := user_mem h in
  let buf := arg ctx 1 in
  let count := arg ctx 2 in
  (forall cs : list ascii,
     fault_at m buf cs -> Z.of_nat (length cs) < 8 ->
     (parse_http_method m buf count (replicate 8 NUL) 8).1 = -1
     /\ trace_write ctx h s = (0, s))
  /\ (forall method cs : list ascii,
        token_at m buf method -> 3 <= Z.of_nat (length method) < 8 ->
        fault_at m (buf + Z.of_nat (length method) + 1) cs ->
        Z.of_nat (length cs) < 128 ->
        Z.of_nat (length cs) < count - Z.of_nat (length method) - 1 ->
        (parse_http_uri m buf count (Z.of_nat (length method))
           (replicate 128 NUL) 128).1 = -1
        /\ trace_write ctx h s = (0, s))
  /\ (forall method uri : list ascii,
        request_line m buf count method uri ->
        ringbuf_reserve_ok h = true ->
        (forall i (pre rest : list ascii),
           search_reaches m buf count i ->
           cl_header = pre ++ rest -> rest <> [] ->
           readable m (buf + i) pre ->
           m (buf + i + Z.of_nat (length pre)) = None ->
           parse_content_length m buf count = 0
           /\ events (trace_write ctx h s).2
              = events s ++ [http_request_event ctx h si method uri 0])
        /\ (forall i (ds : list ascii),
              header_at m buf count i ->
              readable m (buf + (i + cl_header_len)) ds ->
              all_digits ds -> Z.of_nat (length ds) < 10 ->
              i + cl_header_len + Z.of_nat (length ds) < count ->
              m (buf + (i + cl_header_len) + Z.of_nat (length ds)) = None ->
              parse_content_length m buf count = decimal ds 0
              /\ events (trace_write ctx h s).2
                 = events s
                   ++ [http_request_event ctx h si method uri
                         (decimal ds 0)])).
Proof.
  intros Ht Hs Hc m buf count. split; [|split].
  - intros cs Hf Hlen.
    pose proof (parse_http_method_fault m buf count (replicate 8 NUL) 8 cs
                  Hf Hlen) as Hm.
    split; [done|].
    apply (trace_write_method_rejected ctx h s t si Ht Hs Hc).
    fold m buf count. lia.
  - intros method cs Htok Hml Hf Hlen Hfit.
    pose proof (parse_http_uri_fault m buf count (Z.of_nat (length method))
                  (replicate 128 NUL) 128 cs Hf Hlen Hfit) as Hu.
    split; [done|].
    apply (trace_write_uri_rejected ctx h s t si Ht Hs Hc method);
      [done|lia|]. fold m buf count. lia.
  - intros method uri Hrl Hok.
    pose proof (trace_write_request_line ctx h s t si Ht Hs Hc method uri Hrl)
      as Hw. fold m buf count in Hw.
    split.
    + intros i pre rest Hreach Hhdr Hrest Hr Hfault.
      assert (Hcl : parse_content_length m buf count = 0).
      { rewrite (parse_content_length_reaches _ _ _ i Hreach), Hhdr.
        by rewrite cl_header_cmp_fault. }
      split; [done|]. rewrite Hw, Hcl. cbn [snd].
      by rewrite write_outcome_events, Hok.
    + intros i ds Hh Hr Hd Hlen Hfit Hfault.
      assert (Hcl : parse_content_length m buf count = decimal ds 0).
      { rewrite (parse_content_length_header _ _ _ i Hh).
        rewrite (cl_digits_value _ _ _ _ ds); try done; try lia.
        - by apply decimal_lt_wrap.
        - right. right. by left. }
      split; [done|]. rewrite Hw, Hcl. cbn [snd].
      by rewrite write_outcome_events, Hok.
Qed.

Lemma probe_fault_handling_witness :
  let h := host_of "claude" true (mem_of 4096 (chars "GET /v1")) no_mem in
  let ctx := write_ctx 5 4096 49 in
  trace_write ctx h tracked_state = (0, tracked_state).
Proof.
  intros h ctx.
  assert (Hc : 16 <= arg ctx 2 <= 512) by (vm_compute; split; discriminate).
  assert (Htok : token_at (user_mem h) (arg ctx 1) (chars "GET")).
  { rewrite <- (Z.add_0_r (arg ctx 1)).
    apply (token_in_buffer _ 4096 [] (chars "GET") (chars "/v1")).
    - apply readable_mem_of_all.
    - repeat constructor; discriminate. }
  assert (Hf : fault_at (user_mem h)
                 (arg ctx 1 + Z.of_nat (length (chars "GET")) + 1)
                 (chars "/v1")).
  { apply (fault_past_buffer 4096 (chars "GET ") (chars "/v1")).
    repeat constructor; discriminate. }
  exact (proj2 (proj1 (proj2
    (probe_fault_handling ctx h tracked_state 100
       (mk_socket_info 7 16909060 443 150) eq_refl eq_refl Hc))
    (chars "GET") (chars "/v1") Htok ltac:(simpl; lia) Hf
    ltac:(simpl; lia) ltac:(vm_compute; reflexivity))).
Defined.

(** C4 (counterexample).  The example request is written with 49 bytes
    announced.  When only its first 44 bytes can be probed, the fault at
    the second digit of the content length does not fail the parse: a
    record is emitted with content length 4.  When only the first 30
    bytes can be probed, the fault occurs in the header comparison and a
    record is emitted with content length 0. *)
Lemma content_length_fault_still_emits :
  let ctx := write_ctx 5 4096 49 in
  let si := mk_socket_info 7 16909060 443 150 in
  let h44 := host_of "claude" true (mem_of 4096 (take 44 request)) no_mem in
  let h30 := host_of "claude" true (mem_of 4096 (take 30 request)) no_mem in
  (user_mem h44 (4096 + 44) = None
   /\ parse_content_length (user_mem h44) 4096 49 = 4
   /\ events (trace_write ctx h44 tracked_state).2
      = [http_request_event ctx h44 si (chars "GET") (chars "/v1/messages")
           4])
  /\ (user_mem h30 (4096 + 30) = None
      /\ parse_content_length (user_mem h30) 4096 49 = 0
      /\ events (trace_write ctx h30 tracked_state).2
         = [http_request_event ctx h30 si (chars "GET")
              (chars "/v1/messages") 0]).
Proof. intros ctx si h44 h30. repeat split; by vm_compute. Qed.

(** ** The connect handler *)

Section ConnectValid.
Variables (ctx : trace_event_raw_sys_enter) (h : host) (s : bpf_state).
Variables (t raw_addr raw_port : Z).
Hypothesis Htracked : claude_pids s !! current_pid h = Some t.
Hypothesis Haddr : arg ctx 1 <> 0.
Hypothesis Hfamily :
  bpf_probe_read_kernel_u16 (kernel_mem h) (arg ctx 1 + sin_family_off)
  = Some AF_INET.
Hypothesis Hsin_addr :
  bpf_probe_read_kernel_u32 (kernel_mem h) (arg ctx 1 + sin_addr_off)
  = Some raw_addr.
Hypothesis Hsin_port :
  bpf_probe_read_kernel_u16 (kernel_mem h) (arg ctx 1 + sin_port_off)
  = Some raw_port.

Let port := bpf_ntohs raw_port.
Let s1 := increment_counter (cpu h) COUNTER_CONNECT_CALLS s.

Lemma trace_connect_valid :
  trace_connect ctx h s
  = (0,
     if ringbuf_reserve_ok h then
       increment_counter (cpu h) COUNTER_EVENTS_PROCESSED
         (bpf_ringbuf_submit (connect_event h raw_addr port)
            (if is_anthropic_connection raw_addr port then
               set_socket_connections
                 (bpf_map_update_elem socket_connections_max_entries
                    (wrap32 (arg ctx 0))
                    (mk_socket_info (current_pid h) raw_addr port
                       (ktime_ns h))) s1
             else s1))
     else increment_counter (cpu h) COUNTER_EVENTS_DROPPED s1).
Proof.
  unfold trace_connect.
  rewrite Htracked, (proj2 (Z.eqb_neq _ _) Haddr), Hfamily.
  change (negb (AF_INET =? AF_INET)) with false. cbv iota.
  destruct (ringbuf_reserve_ok h); cbn [negb]; [|done].
  by rewrite Hsin_addr, Hsin_port.
Qed.

Lemma trace_connect_valid_pids :
  claude_pids (trace_connect ctx h s).2 = claude_pids s.
Proof.
  rewrite trace_connect_valid. cbn [snd]. subst s1.
  destruct (ringbuf_reserve_ok h), (is_anthropic_connection raw_addr port);
    by rewrite ?increment_counter_pids; cbn;
       rewrite ?increment_counter_pids.
Qed.

Lemma trace_connect_valid_events :
  events (trace_connect ctx h s).2
  = if ringbuf_reserve_ok h
    then events s ++ [connect_event h raw_addr port] else events s.
Proof.
  rewrite trace_connect_valid. cbn [snd]. subst s1.
  destruct (ringbuf_reserve_ok h), (is_anthropic_connection raw_addr port);
    by rewrite ?increment_counter_events; cbn;
       rewrite ?increment_counter_events.
Qed.

Lemma trace_connect_valid_sockets :
  socket_connections (trace_connect ctx h s).2
  = if ringbuf_reserve_ok h && is_anthropic_connection raw_addr port
    then bpf_map_update_elem socket_connections_max_entries
           (wrap32 (arg ctx 0))
           (mk_socket_info (current_pid h) raw_addr port (ktime_ns h))
           (socket_connections s)
    else socket_connections s.
Proof.
  rewrite trace_connect_valid. cbn [snd]. subst s1.
  destruct (ringbuf_reserve_ok h), (is_anthropic_connection raw_addr port);
    by rewrite ?increment_counter_sockets; cbn;
       rewrite ?increment_counter_sockets.
Qed.
End ConnectValid.

(** C5 (amended).  A connect activation of a tracked pid with a valid
    IPv4 destination emits a CONNECT record provided the ring-buffer
    reservation succeeds.  For port 8080 no correlation entry is created.
    For port 443 or 80 the handler updates the correlation tracker with
    the pid, address, port and connect timestamp under the socket
    descriptor; the entry is present afterwards provided the tracker
    already holds that descriptor or has a free slot, and a later write
    by that pid on that descriptor then reaches the HTTP parser and
    carries the stored destination.  When the reservation fails, nothing
    is emitted and no entry is created. *)
Theorem trace_connect_tracks_by_port ctx h s t raw_addr raw_port :
  claude_pids s !! current_pid h = Some t ->
  arg ctx 1 <> 0 ->
  bpf_probe_read_kernel_u16 (kernel_mem h) (arg ctx 1 + sin_family_off)
  = Some AF_INET ->
  bpf_probe_read_kernel_u32 (kernel_mem h) (arg ctx 1 + sin_addr_off)
  = Some raw_addr ->
  bpf_probe_read_kernel_u16 (kernel_mem h) (arg ctx 1 + sin_port_off)
  = Some raw_port ->
  let port := bpf_ntohs raw_port in
  let fd := wrap32 (arg ctx 0) in
  let entry := mk_socket_info (current_pid h) raw_addr port (ktime_ns h) in
  let s' := (trace_connect ctx h s).2 in
  (ringbuf_reserve_ok h = true ->
   events s' = events s ++ [connect_event h raw_addr port]
   /\ claude_pids s' = claude_pids s
   /\ (port = 8080 -> socket_connections s' = socket_connections s)
   /\ (port <> 443 -> port <> 80 ->
       socket_connections s' = socket_connections s)
   /\ (port = 443 \/ port = 80 ->
       socket_connections s'
       = bpf_map_update_elem socket_connections_max_entries fd entry
           (socket_connections s)
       /\ (is_Some (socket_connections s !! fd)
           \/ (size (socket_connections s)
               < socket_connections_max_entries)%nat ->
           socket_connections s' !! fd = Some entry
           /\ forall ctx' h' (method uri : list ascii),
                current_pid h' = current_pid h ->
                wrap32 (arg ctx' 0) = fd ->
                16 <= arg ctx' 2 <= 512 ->
                request_line (user_mem h') (arg ctx' 1) (arg ctx' 2)
                  method uri ->
                trace_write ctx' h' s'
                = (0, write_outcome h' s'
                        (http_request_event ctx' h' entry method uri
                           (parse_content_length (user_mem h') (arg ctx' 1)
                              (arg ctx' 2)))))))
  /\ (ringbuf_reserve_ok h = false ->
      events s' = events s
      /\ socket_connections s' = socket_connections s).
Proof.
  intros Ht Ha Hfam Hsa Hsp port fd entry s'. subst s'.
  rewrite (trace_connect_valid_events ctx h s t raw_addr raw_port);
    try done.
  rewrite (trace_connect_valid_sockets ctx h s t raw_addr raw_port);
    try done.
  pose proof (trace_connect_valid_pids ctx h s t raw_addr raw_port
                Ht Ha Hfam Hsa Hsp) as Hpids.
  fold port fd entry.
  split; intros Hok; rewrite Hok; cbn [andb]; [|done].
  split; [done|]. split; [done|]. split; [|split].
  - intros H8080. unfold is_anthropic_connection. by rewrite H8080.
  - intros H443 H80. unfold is_anthropic_connection.
    by rewrite (proj2 (Z.eqb_neq _ _) H443), (proj2 (Z.eqb_neq _ _) H80).
  - intros Hport.
    assert (Hanth : is_anthropic_connection raw_addr port = true).
    { unfold is_anthropic_connection. destruct Hport as [->| ->]; done. }
    rewrite Hanth. split; [done|]. intros Hroom.
    pose proof (bpf_map_update_elem_lookup socket_connections_max_entries
                  fd entry (socket_connections s) Hroom) as Hentry.
    split; [done|].
    intros ctx' h' method uri Hpid Hfd Hcount Hrl.
    apply (trace_write_request_line ctx' h' _ t entry); try done.
    + by rewrite Hpids, Hpid.
    + rewrite (trace_connect_valid_sockets ctx h s t raw_addr raw_port);
        try done.
      fold port. rewrite Hanth, Hok. cbn [andb].
      by rewrite Hfd.
Qed.

Lemma trace_connect_tracks_by_port_witness :
  let h := host_of "claude" true no_mem (sockaddr_mem 443) in
  let s' := (trace_connect (connect_ctx 9 20480) h tracked_state).2 in
  socket_connections s' !! 9 = Some (mk_socket_info 7 67305985 443 200)
  /\ events s' = [connect_event h 67305985 443].
Proof.
  intros h s'.
  assert (Ha : arg (connect_ctx 9 20480) 1 <> 0) by (vm_compute; discriminate).
  assert (Hroom : is_Some (socket_connections tracked_state
                             !! wrap32 (arg (connect_ctx 9 20480) 0))
                  \/ (size (socket_connections tracked_state)
                      < socket_connections_max_entries)%nat)
    by (right; vm_compute; lia).
  destruct (trace_connect_tracks_by_port (connect_ctx 9 20480) h
              tracked_state 100 67305985 47873
              eq_refl Ha eq_refl eq_refl eq_refl) as [Hok _].
  destruct (Hok eq_refl) as (Hev & _ & _ & _ & Hhttps).
  destruct (Hhttps (or_introl eq_refl)) as [_ Hentry].
  exact (conj (proj1 (Hentry Hroom)) Hev).
Defined.

(** C5 (counterexample).  A tracked pid connects to 1.2.3.4:443 on
    descriptor 9.  With the ring buffer full, no CONNECT record is
    emitted and no correlation entry is created.  With room in the ring
    buffer but all 2048 slots of the correlation tracker taken, the
    CONNECT record is emitted and still no entry is created. *)
Lemma trace_connect_https_without_entry :
  let ctx := connect_ctx 9 20480 in
  let km := sockaddr_mem 443 in
  let h_full := host_of "claude" false no_mem km in
  let h_ok := host_of "claude" true no_mem km in
  (claude_pids tracked_state !! current_pid h_full = Some 100
   /\ bpf_probe_read_kernel_u16 km (arg ctx 1 + sin_family_off) = Some AF_INET
   /\ bpf_probe_read_kernel_u32 km (arg ctx 1 + sin_addr_off) = Some 67305985
   /\ bpf_ntohs <$> bpf_probe_read_kernel_u16 km (arg ctx 1 + sin_port_off)
      = Some 443)
  /\ (events (trace_connect ctx h_full tracked_state).2 = []
      /\ socket_connections (trace_connect ctx h_full tracked_state).2 !! 9
         = None)
  /\ (claude_pids crowded_state !! current_pid h_ok = Some 100
      /\ size (socket_connections crowded_state) = 2048%nat
      /\ events (trace_connect ctx h_ok crowded_state).2
         = [connect_event h_ok 67305985 443]
      /\ socket_connections (trace_connect ctx h_ok crowded_state).2 !! 9
         = None).
Proof. intros ctx km h_full h_ok. repeat split; by vm_compute. Qed.

(** * Further properties of the code *)

(** ** [safe_strcpy] *)

Lemma safe_strcpy_loop_inv m src max_len : forall fuel i (dst : list ascii),
  0 <= i ->
  max_len - 1 - i <= Z.of_nat fuel ->
  (Z.to_nat max_len <= length dst)%nat ->
  let n := (safe_strcpy_loop m src max_len fuel i dst).1 in
  let d := (safe_strcpy_loop m src max_len fuel i dst).2 in
  i <= n /\ (n <= max_len - 1 \/ n = i)
  /\ length d = length dst
  /\ (forall j, i <= j < n ->
        exists c, m (src + j) = Some c /\ c <> NUL
                  /\ d !! Z.to_nat j = Some c)
  /\ (forall k : nat, (Z.of_nat k < i \/ n <= Z.of_nat k) ->
        d !! k = dst !! k)
  /\ (n < max_len - 1 -> m (src + n) = None \/ m (src + n) = Some NUL).
Proof.
  induction fuel as [|fuel IH]; intros i dst Hi Hfuel Hlen; simpl.
  - repeat split; try lia; try done; intros; lia.
  - destruct (Z.ltb_spec i (max_len - 1)) as [Hlt|Hge]; simpl.
    2:{ repeat split; try lia; try done; intros; lia. }
    unfold bpf_probe_read_kernel.
    destruct (m (src + i)) as [c|] eqn:Hm; simpl.
    2:{ repeat split; try lia; try done; try (intros; lia). by left. }
    destruct (Ascii.eqb_spec c NUL) as [->|Hc]; simpl.
    { repeat split; try lia; try done; try (intros; lia). by right. }
    specialize (IH (i + 1) (<[Z.to_nat i := c]> dst)).
    destruct IH as (Hn & Hub & Hl & Hcopy & Hframe & Hstop);
      [lia|lia|by rewrite length_insert|].
    rewrite length_insert in Hl.
    split; [lia|]. split; [lia|]. split; [done|]. split; [|split; [|done]].
    + intros j Hj. destruct (Z.eq_dec j i) as [->|Hne].
      * exists c. split; [done|]. split; [done|].
        rewrite Hframe by lia.
        apply list_lookup_insert_eq. lia.
      * apply Hcopy. lia.
    + intros k Hk. rewrite Hframe by lia.
      apply list_lookup_insert_ne. lia.
Qed.

(** X1.  [safe_strcpy] with a capacity of at least one byte that fits the
    destination always leaves a NUL-terminated string: it returns a length
    [n] below the capacity, the first [n] bytes of the destination are the
    first [n] bytes of the source, none of them NUL, byte [n] is NUL, and
    the bytes after it are untouched.  The copy stops short of
    [max_len - 1] bytes only at a NUL or at a byte that cannot be read. *)
Theorem safe_strcpy_terminated m (dst : list ascii) src max_len :
  1 <= max_len ->
  (Z.to_nat max_len <= length dst)%nat ->
  let n := (safe_strcpy m dst src max_len).1 in
  let d := (safe_strcpy m dst src max_len).2 in
  0 <= n < max_len
  /\ length d = length dst
  /\ d !! Z.to_nat n = Some NUL
  /\ (forall j, 0 <= j < n ->
        exists c, m (src + j) = Some c /\ c <> NUL
                  /\ d !! Z.to_nat j = Some c)
  /\ (forall k : nat, n < Z.of_nat k -> d !! k = dst !! k)
  /\ (n < max_len - 1 -> m (src + n) = None \/ m (src + n) = Some NUL).
Proof.
  intros Hmax Hlen. unfold safe_strcpy.
  pose proof (safe_strcpy_loop_inv m src max_len (Z.to_nat (max_len - 1)) 0
                dst ltac:(lia) ltac:(lia) Hlen) as H.
  destruct (safe_strcpy_loop _ _ _ _ _ _) as [n d]. simpl in H.
  destruct H as (Hn & Hub & Hl & Hcopy & Hframe & Hstop). simpl.
  assert (n < max_len) by lia. ltb_true.
  split; [lia|]. split; [by rewrite length_insert|].
  split; [apply list_lookup_insert_eq; lia|].
  split; [|split; [|done]].
  - intros j Hj. destruct (Hcopy j Hj) as (c & ? & ? & ?).
    exists c. split; [done|]. split; [done|].
    rewrite list_lookup_insert_ne by lia. done.
  - intros k Hk. rewrite list_lookup_insert_ne by lia.
    apply Hframe. lia.
Qed.

Lemma safe_strcpy_terminated_witness :
  safe_strcpy (mem_of 4096 (chars "claude" ++ [NUL])) (replicate 16 SP)
    4096 16
  = (6, chars "claude" ++ NUL :: replicate 9 SP)
  /\ (safe_strcpy (mem_of 4096 (chars "claude" ++ [NUL])) (replicate 16 SP)
        4096 16).2 !! 6%nat = Some NUL.
Proof.
  split; [by vm_compute|].
  exact (proj1 (proj2 (proj2
    (safe_strcpy_terminated (mem_of 4096 (chars "claude" ++ [NUL]))
       (replicate 16 SP) 4096 16 ltac:(lia) ltac:(simpl; lia))))).
Defined.

(** ** URI extraction *)

(** X2.  With the capacity-128 output, URI extraction succeeds exactly
    when the bytes after the method's space form a non-empty token: 1 to
    127 readable bytes without a space, followed by a space that lies
    inside the data.  It then returns the token's length and leaves the
    token, NUL-terminated, in the output.  In particular an empty URI and
    a URI that is not followed by a space are rejected. *)
Theorem parse_http_uri_contract m data data_len method_len
    (out : list ascii) :
  length out = 128%nat ->
  0 <= method_len ->
  let p := data + method_len + 1 in
  let r := (parse_http_uri m data data_len method_len out 128).1 in
  (forall cs : list ascii,
     token_at m p cs -> 0 < Z.of_nat (length cs) < 128 ->
     Z.of_nat (length cs) < data_len - method_len - 1 ->
     parse_http_uri m data data_len method_len out 128
     = (Z.of_nat (length cs), cs ++ NUL :: drop (S (length cs)) out))
  /\ (r = -1 <->
      ~ exists cs : list ascii,
          token_at m p cs /\ 0 < Z.of_nat (length cs) < 128
          /\ Z.of_nat (length cs) < data_len - method_len - 1)
  /\ (r = -1 \/ 1 <= r <= 127)
  /\ (m p = Some SP -> r = -1)
  /\ ((forall j, 0 <= j < 128 -> m (p + j) <> Some SP) -> r = -1).
Proof.
  intros Hout Hml p r.
  assert (Htok : forall cs : list ascii,
            token_at m p cs -> 0 < Z.of_nat (length cs) < 128 ->
            Z.of_nat (length cs) < data_len - method_len - 1 ->
            parse_http_uri m data data_len method_len out 128
            = (Z.of_nat (length cs), cs ++ NUL :: drop (S (length cs)) out)).
  { intros cs Ht Hlen Hfit. apply parse_http_uri_token; try done; lia. }
  assert (Hiff : r = -1 <->
            ~ exists cs : list ascii,
                token_at m p cs /\ 0 < Z.of_nat (length cs) < 128
                /\ Z.of_nat (length cs) < data_len - method_len - 1).
  { subst r. split.
    - intros Hfail (cs & Ht & Hlen & Hfit).
      rewrite (Htok cs Ht Hlen Hfit) in Hfail. simpl in Hfail. lia.
    - intros Hno.
      destruct (Z.eq_dec
                  (parse_http_uri m data data_len method_len out 128).1 (-1))
        as [?|Hne]; [done|].
      apply parse_http_uri_inv in Hne as (cs & Ht & Hlen & Hfit & _ & _).
      destruct Hno. by exists cs. }
  split; [done|]. split; [done|]. split; [|split].
  - subst r.
    destruct (Z.eq_dec
                (parse_http_uri m data data_len method_len out 128).1 (-1))
      as [?|Hne]; [by left|].
    apply parse_http_uri_inv in Hne as (cs & _ & Hlen & _ & _ & ->).
    right. lia.
  - intros Hsp. apply Hiff. intros (cs & (Hr & Hns & _) & Hlen & _).
    destruct cs as [|c cs]; [simpl in Hlen; lia|].
    destruct Hr as [Hc _]. inversion Hns; subst. congruence.
  - intros Hnone. apply Hiff. intros (cs & (_ & _ & Hsp) & Hlen & _).
    by apply (Hnone (Z.of_nat (length cs))); [lia|].
Qed.

Lemma parse_http_uri_contract_witness :
  parse_http_uri (mem_of 4096 request) 4096 49 3 (replicate 128 NUL) 128
  = (12, padded 128 (chars "/v1/messages")).
Proof.
  destruct (request_line_request _ _ (readable_mem_of_all 4096 request))
    as (_ & _ & Hu & _ & _).
  exact (proj1 (parse_http_uri_contract (mem_of 4096 request) 4096 49 3
                  (replicate 128 NUL) eq_refl ltac:(lia))
           (chars "/v1/messages") Hu ltac:(simpl; lia) ltac:(simpl; lia)).
Defined.

(** ** What one activation can do to the state *)

Lemma claude_pids_submit ev s :
  claude_pids (bpf_ringbuf_submit ev s) = claude_pids s.
Proof. done. Qed.

Lemma socket_connections_submit ev s :
  socket_connections (bpf_ringbuf_submit ev s) = socket_connections s.
Proof. done. Qed.

Lemma events_submit ev s :
  events (bpf_ringbuf_submit ev s) = events s ++ [ev].
Proof. done. Qed.

Lemma counter_value_submit ev s c k :
  counter_value (bpf_ringbuf_submit ev s) c k = counter_value s c k.
Proof. done. Qed.

Lemma claude_pids_set_pids f s :
  claude_pids (set_claude_pids f s) = f (claude_pids s).
Proof. done. Qed.

Lemma socket_connections_set_pids f s :
  socket_connections (set_claude_pids f s) = socket_connections s.
Proof. done. Qed.

Lemma events_set_pids f s : events (set_claude_pids f s) = events s.
Proof. done. Qed.

Lemma counter_value_set_pids f s c k :
  counter_value (set_claude_pids f s) c k = counter_value s c k.
Proof. done. Qed.

Lemma claude_pids_set_sockets f s :
  claude_pids (set_socket_connections f s) = claude_pids s.
Proof. done. Qed.

Lemma socket_connections_set_sockets f s :
  socket_connections (set_socket_connections f s) = f (socket_connections s).
Proof. done. Qed.

Lemma events_set_sockets f s : events (set_socket_connections f s) = events s.
Proof. done. Qed.

Lemma counter_value_set_sockets f s c k :
  counter_value (set_socket_connections f s) c k = counter_value s c k.
Proof. done. Qed.

Create Rewrite HintDb bpf_state.

#[local] Hint Rewrite
  increment_counter_pids increment_counter_sockets increment_counter_events
  claude_pids_submit socket_connections_submit events_submit
  counter_value_submit
  claude_pids_set_pids socket_connections_set_pids events_set_pids
  counter_value_set_pids
  claude_pids_set_sockets socket_connections_set_sockets events_set_sockets
  counter_value_set_sockets : bpf_state.

(** The shapes of the state an activation can leave. *)

Lemma trace_execve_cases ctx h s :
  trace_execve ctx h s = (0, s)
  \/ (matching_exec (ActExecve ctx h) /\ ringbuf_reserve_ok h = false
      /\ trace_execve ctx h s
         = (0, increment_counter (cpu h) COUNTER_EVENTS_DROPPED
                 (increment_counter (cpu h) COUNTER_EXECVE_CALLS s)))
  \/ (matching_exec (ActExecve ctx h) /\ ringbuf_reserve_ok h = true
      /\ exists ev,
           event_type ev = EVENT_EXEC /\ pid ev = current_pid h
           /\ timestamp ev = ktime_ns h
           /\ trace_execve ctx h s
              = (0, increment_counter (cpu h) COUNTER_EVENTS_PROCESSED
                      (bpf_ringbuf_submit ev
                         (set_claude_pids
                            (bpf_map_update_elem claude_pids_max_entries
                               (current_pid h) (ktime_ns h))
                            (increment_counter (cpu h)
                               COUNTER_EXECVE_CALLS s))))).
Proof.
  unfold trace_execve, matching_exec.
  destruct (current_task h =? 0); [by left|].
  destruct (current_comm h) as [name|]; [|by left].
  destruct (is_claude_process name) eqn:Hname; [|by left]. cbn [negb].
  destruct (ringbuf_reserve_ok h); cbn [negb].
  - right. right. split; [by exists name|]. split; [done|].
    eexists. by repeat split.
  - right. left. split; [by exists name|]. done.
Qed.

Lemma trace_connect_cases ctx h s :
  trace_connect ctx h s = (0, s)
  \/ (is_Some (claude_pids s !! current_pid h)
      /\ (trace_connect ctx h s
          = (0, increment_counter (cpu h) COUNTER_CONNECT_CALLS s)
          \/ (ringbuf_reserve_ok h = false
              /\ trace_connect ctx h s
                 = (0, increment_counter (cpu h) COUNTER_EVENTS_DROPPED
                         (increment_counter (cpu h)
                            COUNTER_CONNECT_CALLS s)))
          \/ (ringbuf_reserve_ok h = true
              /\ exists raw_addr raw_port,
                   bpf_probe_read_kernel_u16 (kernel_mem h)
                     (arg ctx 1 + sin_family_off) = Some AF_INET
                   /\ bpf_probe_read_kernel_u32 (kernel_mem h)
                        (arg ctx 1 + sin_addr_off) = Some raw_addr
                   /\ bpf_probe_read_kernel_u16 (kernel_mem h)
                        (arg ctx 1 + sin_port_off) = Some raw_port
                   /\ trace_connect ctx h s
                      = (0, increment_counter (cpu h)
                              COUNTER_EVENTS_PROCESSED
                              (bpf_ringbuf_submit
                                 (connect_event h raw_addr
                                    (bpf_ntohs raw_port))
                                 (if is_anthropic_connection raw_addr
                                       (bpf_ntohs raw_port)
                                  then
                                    set_socket_connections
                                      (bpf_map_update_elem
                                         socket_connections_max_entries
                                         (wrap32 (arg ctx 0))
                                         (mk_socket_info (current_pid h)
                                            raw_addr (bpf_ntohs raw_port)
                                            (ktime_ns h)))
                                      (increment_counter (cpu h)
                                         COUNTER_CONNECT_CALLS s)
                                  else
                                    increment_counter (cpu h)
                                      COUNTER_CONNECT_CALLS s)))))).
Proof.
  unfold trace_connect.
  destruct (claude_pids s !! current_pid h) as [t|] eqn:Ht; [|by left].
  right. split; [by eexists|].
  destruct (arg ctx 1 =? 0); [by left|].
  destruct (bpf_probe_read_kernel_u16 _ (arg ctx 1 + sin_family_off))
    as [family|] eqn:Hfam; [|by left].
  destruct (Z.eqb_spec family AF_INET) as [->|Hne]; cbn [negb]; [|by left].
  destruct (ringbuf_reserve_ok h); cbn [negb]; [|right; by left].
  destruct (bpf_probe_read_kernel_u32 _ _) as [raw_addr|] eqn:Ha;
    [|by left].
  destruct (bpf_probe_read_kernel_u16 _ (arg ctx 1 + sin_port_off))
    as [raw_port|] eqn:Hp; [|by left].
  right. right. split; [done|]. exists raw_addr, raw_port.
  by repeat split.
Qed.

Lemma trace_exit_cases ctx h s :
  trace_exit ctx h s = (0, s)
  \/ (is_Some (claude_pids s !! wrap32 (tp_pid ctx))
      /\ ((ringbuf_reserve_ok h = false
           /\ trace_exit ctx h s
              = (0, increment_counter (cpu h) COUNTER_EVENTS_DROPPED
                      (set_claude_pids
                         (bpf_map_delete_elem (wrap32 (tp_pid ctx))) s)))
          \/ (ringbuf_reserve_ok h = true
              /\ exists ev,
                   event_type ev = EVENT_EXIT
                   /\ pid ev = wrap32 (tp_pid ctx)
                   /\ timestamp ev = ktime_ns h
                   /\ exit_code ev = tp_exit_code ctx
                   /\ trace_exit ctx h s
                      = (0, increment_counter (cpu h)
                              COUNTER_EVENTS_PROCESSED
                              (bpf_ringbuf_submit ev
                                 (set_claude_pids
                                    (bpf_map_delete_elem
                                       (wrap32 (tp_pid ctx))) s)))))).
Proof.
  unfold trace_exit.
  destruct (claude_pids s !! wrap32 (tp_pid ctx)) as [t|] eqn:Ht; [|by left].
  right. split; [by eexists|].
  destruct (ringbuf_reserve_ok h); cbn [negb]; [|by left].
  right. split; [done|]. eexists. by repeat split.
Qed.

Lemma trace_write_cases ctx h s :
  trace_write ctx h s = (0, s)
  \/ exists t si (method uri : list ascii),
       claude_pids s !! current_pid h = Some t
       /\ socket_connections s !! wrap32 (arg ctx 0) = Some si
       /\ 16 <= arg ctx 2 <= 512
       /\ request_line (user_mem h) (arg ctx 1) (arg ctx 2) method uri
       /\ trace_write ctx h s
          = (0, write_outcome h s
                  (http_request_event ctx h si method uri
                     (parse_content_length (user_mem h) (arg ctx 1)
                        (arg ctx 2)))).
Proof.
  destruct (claude_pids s !! current_pid h) as [t|] eqn:Ht;
    [|left; by apply trace_write_untracked].
  destruct (socket_connections s !! wrap32 (arg ctx 0)) as [si|] eqn:Hs.
  2:{ left. unfold trace_write. by rewrite Ht, Hs. }
  destruct (Z.lt_ge_cases (arg ctx 2) 16) as [?|Hlo].
  { left. unfold trace_write. rewrite Ht, Hs. by ltb_true. }
  destruct (Z.lt_ge_cases 512 (arg ctx 2)) as [?|Hhi].
  { left. unfold trace_write, HTTP_HEADER_SIZE. rewrite Ht, Hs.
    rewrite (proj2 (Z.gtb_lt _ _)) by lia. by rewrite orb_true_r. }
  assert (Hc : 16 <= arg ctx 2 <= 512) by lia.
  destruct (Z.lt_ge_cases
              (parse_http_method (user_mem h) (arg ctx 1) (arg ctx 2)
                 (replicate 8 NUL) 8).1 3) as [?|Hml].
  { left. by apply (trace_write_method_rejected ctx h s t si). }
  destruct (parse_http_method_inv (user_mem h) (arg ctx 1) (arg ctx 2)
              (replicate 8 NUL) 8)
    as (_ & _ & method & Htok & Hl & Hfst); [lia|].
  destruct (Z.lt_ge_cases
              (parse_http_uri (user_mem h) (arg ctx 1) (arg ctx 2)
                 (Z.of_nat (length method)) (replicate 128 NUL) 128).1 1)
    as [?|Hul].
  { left. by apply (trace_write_uri_rejected ctx h s t si Ht Hs Hc method). }
  destruct (parse_http_uri_inv (user_mem h) (arg ctx 1) (arg ctx 2)
              (Z.of_nat (length method)) (replicate 128 NUL) 128)
    as (uri & Hu & Hlu & Hfit & _ & _); [lia|].
  right. exists t, si, method, uri.
  assert (Hrl : request_line (user_mem h) (arg ctx 1) (arg ctx 2) method uri).
  { unfold request_line. split; [done|]. split; [lia|]. split; [done|].
    split; lia. }
  do 4 (split; [done|]).
  by apply (trace_write_request_line ctx h s t si).
Qed.

Lemma bpf_map_update_elem_lookup_ne {V : Type} (n : nat) k k' (v : V)
    (m : gmap Z V) :
  k <> k' -> bpf_map_update_elem n k v m !! k' = m !! k'.
Proof.
  intros Hne. unfold bpf_map_update_elem.
  destruct (m !! k); [by rewrite lookup_insert_ne|].
  destruct (size m <? n)%nat; [by rewrite lookup_insert_ne|done].
Qed.

Lemma bpf_map_update_elem_is_Some {V : Type} (n : nat) k k' (v : V)
    (m : gmap Z V) :
  is_Some (m !! k') -> is_Some (bpf_map_update_elem n k v m !! k').
Proof.
  intros Hk'. destruct (decide (k = k')) as [->|Hne].
  - rewrite bpf_map_update_elem_lookup; [by eexists|by left].
  - by rewrite bpf_map_update_elem_lookup_ne.
Qed.

(** ** The exec filter *)

(** X3.  An exec activation changes the state exactly when the first six
    bytes of the current process name are the bytes of "claude" (with a
    current task and a readable name): any other name leaves the state as
    it is, and every name with that prefix is counted as an exec call,
    whatever follows the sixth byte. *)
Theorem trace_execve_filter_is_prefix_test ctx h s (name : list ascii) :
  current_task h <> 0 ->
  current_comm h = Some name ->
  (take 6 name <> chars CLAUDE_COMM -> trace_execve ctx h s = (0, s))
  /\ (take 6 name = chars CLAUDE_COMM ->
      counter_value (trace_execve ctx h s).2 (cpu h) COUNTER_EXECVE_CALLS
      = wrap64 (counter_value s (cpu h) COUNTER_EXECVE_CALLS + 1)
      /\ (ringbuf_reserve_ok h = true ->
          exists ev, events (trace_execve ctx h s).2 = events s ++ [ev]
                     /\ comm ev = name /\ event_type ev = EVENT_EXEC)).
Proof.
  intros Htask Hcomm. split.
  - intros Hne. by apply (trace_execve_prefix_filter ctx h s name).
  - intros Hpre. apply is_claude_process_prefix in Hpre.
    unfold trace_execve.
    rewrite (proj2 (Z.eqb_neq _ _) Htask), Hcomm, Hpre. cbn [negb].
    destruct (ringbuf_reserve_ok h); cbn [negb snd].
    + split.
      * rewrite counter_value_untouched by (by right).
        autorewrite with bpf_state. apply counter_value_incremented.
      * intros _. eexists. autorewrite with bpf_state. by repeat split.
    + split; [|done].
      rewrite counter_value_untouched by (by right).
      apply counter_value_incremented.
Qed.

Lemma trace_execve_filter_is_prefix_test_witness :
  trace_execve (exec_ctx 0) (host_of "bash" true no_mem no_mem) tracked_state
  = (0, tracked_state).
Proof.
  assert (Htask : current_task (host_of "bash" true no_mem no_mem) <> 0)
    by (vm_compute; discriminate).
  exact (proj1 (trace_execve_filter_is_prefix_test (exec_ctx 0)
                  (host_of "bash" true no_mem no_mem) tracked_state
                  (comm_of "bash") Htask eq_refl)
           ltac:(vm_compute; discriminate)).
Defined.

(** ** Sequences of activations *)

Lemma run_cons a acts s : run (a :: acts) s = run acts (activate a s).2.
Proof. done. Qed.

Lemma run_app acts1 acts2 s : run (acts1 ++ acts2) s = run acts2 (run acts1 s).
Proof. unfold run. apply fold_left_app. Qed.

(** X4.  Nothing happens before a matching exec: from a state whose
    identity tracker is empty, a sequence of activations that contains no
    exec of a process passing the name filter leaves the whole state as
    it is: no record, no tracker entry, no counter change. *)
Theorem run_without_matching_exec (acts : list activation) s :
  claude_pids s = ∅ ->
  Forall (fun a => ~ matching_exec a) acts ->
  run acts s = s.
Proof.
  intros Hempty Hall. induction Hall as [|a acts Ha _ IH]; [done|].
  rewrite run_cons.
  assert (Hstep : (activate a s).2 = s).
  { destruct a as [ctx h|ctx h|ctx h|ctx h]; simpl.
    - destruct (trace_execve_cases ctx h s) as [->|[(Hm & _)|(Hm & _)]];
        [done|by destruct Ha..].
    - rewrite trace_connect_untracked; [done|]. by rewrite Hempty.
    - rewrite trace_exit_untracked; [done|]. by rewrite Hempty.
    - rewrite trace_write_untracked; [done|]. by rewrite Hempty. }
  by rewrite Hstep.
Qed.

Lemma run_without_matching_exec_witness :
  run [ActConnect (connect_ctx 9 20480)
         (host_of "curl" true no_mem (sockaddr_mem 443));
       ActExecve (exec_ctx 0) (host_of "curl" true no_mem no_mem);
       ActWrite (write_ctx 9 4096 49)
         (host_of "curl" true (mem_of 4096 request) no_mem);
       ActExit (exit_ctx 7 0) (host_of "curl" true no_mem no_mem)]
    empty_state
  = empty_state.
Proof.
  apply run_without_matching_exec; [done|].
  repeat constructor; simpl; try tauto.
  intros (name & [= <-] & Hname). vm_compute in Hname. discriminate.
Defined.

(** X5.  The core never removes a socket-correlation entry: a descriptor
    present in the correlation tracker is still present after any
    activation, hence after any sequence of activations. *)
Theorem socket_entries_are_never_removed (acts : list activation) s fd :
  is_Some (socket_connections s !! fd) ->
  is_Some (socket_connections (run acts s) !! fd).
Proof.
  revert s. induction acts as [|a acts IH]; intros s Hfd; [done|].
  rewrite run_cons. apply IH.
  destruct a as [ctx h|ctx h|ctx h|ctx h]; simpl.
  - destruct (trace_execve_cases ctx h s)
      as [->|[(_ & _ & ->)|(_ & _ & ev & _ & _ & _ & ->)]];
      cbn [snd]; by autorewrite with bpf_state.
  - destruct (trace_connect_cases ctx h s)
      as [->|(_ & [->|[(_ & ->)|(_ & ra & rp & _ & _ & _ & ->)]])];
      cbn [snd]; autorewrite with bpf_state; try done.
    destruct (is_anthropic_connection ra (bpf_ntohs rp));
      autorewrite with bpf_state; [|done].
    by apply bpf_map_update_elem_is_Some.
  - destruct (trace_exit_cases ctx h s)
      as [->|(_ & [(_ & ->)|(_ & ev & _ & _ & _ & _ & ->)])];
      cbn [snd]; by autorewrite with bpf_state.
  - destruct (trace_write_cases ctx h s)
      as [->|(t & si & method & uri & _ & _ & _ & _ & ->)];
      cbn [snd]; [done|].
    unfold write_outcome. destruct (ringbuf_reserve_ok h);
      by autorewrite with bpf_state.
Qed.

Lemma socket_entries_are_never_removed_witness :
  is_Some (socket_connections
             (run [ActExit (exit_ctx 7 0)
                     (host_of "claude" true no_mem no_mem)]
                tracked_state) !! 5).
Proof.
  apply socket_entries_are_never_removed. by vm_compute; eexists.
Defined.

(** X6.  An activation returns 0 and emits at most one record, appended
    after the records already submitted.  It emits one only when the
    ring-buffer reservation succeeded; the record then has the handler's
    event type, the pid the activation is about and the current clock
    value, and the processed counter of the running processor goes up by
    one.  When no record is emitted, no processed counter changes. *)
Theorem activation_emits_at_most_one_record a s :
  let s' := (activate a s).2 in
  let h := act_host a in
  (activate a s).1 = 0
  /\ ((events s' = events s
       /\ forall c,
            counter_value s' c COUNTER_EVENTS_PROCESSED
            = counter_value s c COUNTER_EVENTS_PROCESSED)
      \/ (ringbuf_reserve_ok h = true
          /\ exists ev,
               events s' = events s ++ [ev]
               /\ event_type ev = act_event_type a
               /\ pid ev = act_pid a
               /\ timestamp ev = ktime_ns h
               /\ counter_value s' (cpu h) COUNTER_EVENTS_PROCESSED
                  = wrap64
                      (counter_value s (cpu h) COUNTER_EVENTS_PROCESSED
                       + 1))).
Proof.
  assert (Hkeep : forall c' k c s0,
            k <> COUNTER_EVENTS_PROCESSED ->
            counter_value (increment_counter c' k s0) c
              COUNTER_EVENTS_PROCESSED
            = counter_value s0 c COUNTER_EVENTS_PROCESSED).
  { intros c' k c s0 Hk. apply counter_value_untouched. right. congruence. }
  destruct a as [ctx h|ctx h|ctx h|ctx h]; simpl.
  - destruct (trace_execve_cases ctx h s)
      as [->|[(_ & _ & ->)|(_ & Hok & ev & Hty & Hpid & Hts & ->)]];
      cbn [fst snd]; (split; [done|]).
    + by left.
    + left. autorewrite with bpf_state. split; [done|]. intros c.
      by rewrite !Hkeep.
    + right. split; [done|]. exists ev. autorewrite with bpf_state.
      do 4 (split; [done|]).
      rewrite counter_value_incremented. autorewrite with bpf_state.
      by rewrite Hkeep.
  - destruct (trace_connect_cases ctx h s)
      as [->|(_ & [->|[(_ & ->)|(Hok & ra & rp & _ & _ & _ & ->)]])];
      cbn [fst snd]; (split; [done|]).
    + by left.
    + left. autorewrite with bpf_state. split; [done|]. intros c.
      by rewrite Hkeep.
    + left. autorewrite with bpf_state. split; [done|]. intros c.
      by rewrite !Hkeep.
    + right. split; [done|]. eexists. autorewrite with bpf_state.
      rewrite counter_value_incremented. autorewrite with bpf_state.
      destruct (is_anthropic_connection ra (bpf_ntohs rp));
        autorewrite with bpf_state; rewrite Hkeep by done; by repeat split.
  - destruct (trace_exit_cases ctx h s)
      as [->|(_ & [(_ & ->)|(Hok & ev & Hty & Hpid & Hts & _ & ->)])];
      cbn [fst snd]; (split; [done|]).
    + by left.
    + left. autorewrite with bpf_state. split; [done|]. intros c.
      rewrite Hkeep by done. by autorewrite with bpf_state.
    + right. split; [done|]. exists ev. autorewrite with bpf_state.
      do 4 (split; [done|]).
      rewrite counter_value_incremented. by autorewrite with bpf_state.
  - destruct (trace_write_cases ctx h s)
      as [->|(t & si & method & uri & _ & _ & _ & _ & ->)];
      cbn [fst snd]; (split; [done|]); [by left|].
    unfold write_outcome. destruct (ringbuf_reserve_ok h).
    + right. split; [done|]. eexists. autorewrite with bpf_state.
      rewrite counter_value_incremented. autorewrite with bpf_state.
      rewrite Hkeep by done. by repeat split.
    + left. autorewrite with bpf_state. split; [done|]. intros c.
      by rewrite !Hkeep.
Qed.

(** ** Marking and unmarking *)

Section MatchingExec.
Variables (ctx : trace_event_raw_sys_enter) (h : host) (s : bpf_state).
Variable name : list ascii.
Hypothesis Htask : current_task h <> 0.
Hypothesis Hcomm : current_comm h = Some name.
Hypothesis Hname : is_claude_process name = true.
Hypothesis Hok : ringbuf_reserve_ok h = true.

Lemma trace_execve_marked_pids :
  claude_pids (trace_execve ctx h s).2
  = bpf_map_update_elem claude_pids_max_entries (current_pid h) (ktime_ns h)
      (claude_pids s).
Proof.
  unfold trace_execve.
  rewrite (proj2 (Z.eqb_neq _ _) Htask), Hcomm, Hname, Hok. cbn [negb snd].
  by autorewrite with bpf_state.
Qed.

Lemma trace_execve_marked_events :
  exists ev, events (trace_execve ctx h s).2 = events s ++ [ev]
             /\ event_type ev = EVENT_EXEC /\ pid ev = current_pid h.
Proof.
  unfold trace_execve.
  rewrite (proj2 (Z.eqb_neq _ _) Htask), Hcomm, Hname, Hok. cbn [negb snd].
  eexists. autorewrite with bpf_state. by repeat split.
Qed.
End MatchingExec.

(** X7.  A matching exec for a pid that is already tracked overwrites its
    timestamp and creates no second entry: the tracker has the same keys
    and the same number of entries as before, also when it is full. *)
Theorem trace_execve_again_overwrites ctx h s (name : list ascii) t :
  current_task h <> 0 ->
  current_comm h = Some name ->
  is_claude_process name = true ->
  ringbuf_reserve_ok h = true ->
  claude_pids s !! current_pid h = Some t ->
  let s' := (trace_execve ctx h s).2 in
  claude_pids s' = <[current_pid h := ktime_ns h]> (claude_pids s)
  /\ claude_pids s' !! current_pid h = Some (ktime_ns h)
  /\ size (claude_pids s') = size (claude_pids s)
  /\ dom (claude_pids s') = dom (claude_pids s)
  /\ forall q, q <> current_pid h ->
       claude_pids s' !! q = claude_pids s !! q.
Proof.
  intros Htask Hcomm Hname Hok Ht s'. subst s'.
  rewrite (trace_execve_marked_pids ctx h s name) by done.
  unfold bpf_map_update_elem. rewrite Ht.
  split; [done|]. split; [by rewrite lookup_insert_eq|].
  split; [by apply map_size_insert_Some|].
  split; [by apply dom_insert_lookup_L|].
  intros q Hq. by rewrite lookup_insert_ne.
Qed.

Lemma trace_execve_again_overwrites_witness :
  claude_pids
    (trace_execve (exec_ctx 0) (host_of "claude" true no_mem no_mem)
       tracked_state).2
  = <[7 := 200]> {[ 7 := 100 ]}.
Proof.
  assert (Htask : current_task (host_of "claude" true no_mem no_mem) <> 0)
    by (vm_compute; discriminate).
  exact (proj1 (trace_execve_again_overwrites (exec_ctx 0)
                  (host_of "claude" true no_mem no_mem) tracked_state
                  (comm_of "claude") 100 Htask eq_refl eq_refl eq_refl
                  eq_refl)).
Defined.

(** X8.  Exec followed by exit restores the identity tracker.  For a pid
    that is not tracked and a tracker with a free slot, a matching exec
    whose reservation succeeds enters the pid with the exec's clock
    value, and an exit activation for that pid, whether or not its own
    reservation succeeds, leaves the tracker exactly as it was before the
    exec.  The EXEC record is emitted first; the EXIT record follows it
    when the exit's reservation succeeds. *)
Theorem trace_execve_then_exit_round_trip ctx h s (name : list ascii)
    ctx' h' :
  current_task h <> 0 ->
  current_comm h = Some name ->
  is_claude_process name = true ->
  ringbuf_reserve_ok h = true ->
  claude_pids s !! current_pid h = None ->
  (size (claude_pids s) < claude_pids_max_entries)%nat ->
  wrap32 (tp_pid ctx') = current_pid h ->
  let s1 := (trace_execve ctx h s).2 in
  let s2 := (trace_exit ctx' h' s1).2 in
  claude_pids s1 !! current_pid h = Some (ktime_ns h)
  /\ claude_pids s2 = claude_pids s
  /\ exists ev1,
       events s1 = events s ++ [ev1] /\ event_type ev1 = EVENT_EXEC
       /\ (ringbuf_reserve_ok h' = false -> events s2 = events s ++ [ev1])
       /\ (ringbuf_reserve_ok h' = true ->
           exists ev2, events s2 = events s ++ [ev1; ev2]
                       /\ event_type ev2 = EVENT_EXIT
                       /\ pid ev2 = pid ev1).
Proof.
  intros Htask Hcomm Hname Hok Hnone Hroom Hpid s1 s2. subst s1 s2.
  pose proof (trace_execve_marked_pids ctx h s name Htask Hcomm Hname Hok)
    as Hp.
  assert (Hin : claude_pids (trace_execve ctx h s).2 !! current_pid h
                = Some (ktime_ns h)).
  { rewrite Hp. apply bpf_map_update_elem_lookup. by right. }
  split; [done|]. split.
  - rewrite trace_exit_pids, Hpid, Hp. unfold bpf_map_update_elem.
    rewrite Hnone, (proj2 (Nat.ltb_lt _ _) Hroom).
    by apply delete_insert_id.
  - destruct (trace_execve_marked_events ctx h s name Htask Hcomm Hname Hok)
      as (ev1 & He1 & Hty & Hp1).
    exists ev1. split; [done|]. split; [done|].
    unfold trace_exit. rewrite Hpid, Hin.
    destruct (ringbuf_reserve_ok h'); cbn [negb snd];
      autorewrite with bpf_state; rewrite He1.
    + split; [intros [=]|]. intros _. eexists.
      rewrite <- app_assoc. simpl. split; [done|]. split; [done|].
      simpl. congruence.
    + split; [done|]. intros [=].
Qed.

Lemma trace_execve_then_exit_round_trip_witness :
  let h := host_of "claude" true no_mem no_mem in
  claude_pids
    (trace_exit (exit_ctx 7 0) h (trace_execve (exec_ctx 0) h empty_state).2).2
  = claude_pids empty_state.
Proof.
  intros h.
  assert (Htask : current_task h <> 0) by (vm_compute; discriminate).
  exact (proj1 (proj2
    (trace_execve_then_exit_round_trip (exec_ctx 0) h empty_state
       (comm_of "claude") (exit_ctx 7 0) h Htask eq_refl eq_refl eq_refl
       eq_refl ltac:(vm_compute; lia) eq_refl))).
Defined.

(** X13.  An activation touches only its own keys.  The identity entry
    of every pid other than the one the activation is about is left as it
    is; connect and write activations never change the identity tracker;
    exec, exit and write activations never change the correlation
    tracker, and a connect activation changes at most the entry of its
    own socket descriptor. *)
Theorem activation_frame a s :
  let s' := (activate a s).2 in
  (forall q, q <> act_pid a -> claude_pids s' !! q = claude_pids s !! q)
  /\ match a with
     | ActConnect ctx _ =>
         claude_pids s' = claude_pids s
         /\ forall fd, fd <> wrap32 (arg ctx 0) ->
              socket_connections s' !! fd = socket_connections s !! fd
     | ActWrite _ _ =>
         claude_pids s' = claude_pids s
         /\ socket_connections s' = socket_connections s
     | ActExecve _ _ | ActExit _ _ =>
         socket_connections s' = socket_connections s
     end.
Proof.
  destruct a as [ctx h|ctx h|ctx h|ctx h]; simpl.
  - destruct (trace_execve_cases ctx h s)
      as [->|[(_ & _ & ->)|(_ & _ & ev & _ & _ & _ & ->)]];
      cbn [snd]; autorewrite with bpf_state; try done.
    split; [|done]. intros q Hq. by apply bpf_map_update_elem_lookup_ne.
  - destruct (trace_connect_cases ctx h s)
      as [->|(_ & [->|[(_ & ->)|(_ & ra & rp & _ & _ & _ & ->)]])];
      cbn [snd]; autorewrite with bpf_state; try done.
    destruct (is_anthropic_connection ra (bpf_ntohs rp));
      autorewrite with bpf_state; [|done].
    split; [done|]. split; [done|].
    intros fd Hfd. by apply bpf_map_update_elem_lookup_ne.
  - destruct (trace_exit_cases ctx h s)
      as [->|(_ & [(_ & ->)|(_ & ev & _ & _ & _ & _ & ->)])];
      cbn [snd]; autorewrite with bpf_state; try done;
      (split; [|done]); intros q Hq; unfold bpf_map_delete_elem;
      by rewrite lookup_delete_ne.
  - destruct (trace_write_cases ctx h s)
      as [->|(t & si & method & uri & _ & _ & _ & _ & ->)];
      cbn [snd]; [done|].
    unfold write_outcome. destruct (ringbuf_reserve_ok h);
      by autorewrite with bpf_state.
Qed.

(** ** Rejected connects and writes *)

(** X9.  A connect activation of a tracked pid whose destination cannot
    be used is counted as a connect call and otherwise ignored: when the
    address pointer is null, when the address family cannot be read or is
    not AF_INET, and when the address or the port cannot be read after
    the reservation (the reserved record is then discarded).  No record
    is emitted, no tracker changes and the dropped counter is not
    touched. *)
Theorem trace_connect_rejects ctx h s t :
  claude_pids s !! current_pid h = Some t ->
  (arg ctx 1 = 0
   \/ bpf_probe_read_kernel_u16 (kernel_mem h) (arg ctx 1 + sin_family_off)
      <> Some AF_INET
   \/ (ringbuf_reserve_ok h = true
       /\ (bpf_probe_read_kernel_u32 (kernel_mem h) (arg ctx 1 + sin_addr_off)
           = None
           \/ bpf_probe_read_kernel_u16 (kernel_mem h)
                (arg ctx 1 + sin_port_off) = None))) ->
  let s' := (trace_connect ctx h s).2 in
  trace_connect ctx h s
  = (0, increment_counter (cpu h) COUNTER_CONNECT_CALLS s)
  /\ events s' = events s
  /\ claude_pids s' = claude_pids s
  /\ socket_connections s' = socket_connections s
  /\ counter_value s' (cpu h) COUNTER_CONNECT_CALLS
     = wrap64 (counter_value s (cpu h) COUNTER_CONNECT_CALLS + 1)
  /\ counter_value s' (cpu h) COUNTER_EVENTS_DROPPED
     = counter_value s (cpu h) COUNTER_EVENTS_DROPPED.
Proof.
  intros Ht Hbad s'. subst s'.
  assert (Heq : trace_connect ctx h s
                = (0, increment_counter (cpu h) COUNTER_CONNECT_CALLS s)).
  { unfold trace_connect. rewrite Ht.
    destruct (Z.eqb_spec (arg ctx 1) 0) as [?|Ha]; [done|].
    destruct (bpf_probe_read_kernel_u16 _ (arg ctx 1 + sin_family_off))
      as [family|] eqn:Hfam; [|done].
    destruct (Z.eqb_spec family AF_INET) as [->|Hne]; cbn [negb]; [|done].
    destruct Hbad as [?|[?|[Hok Hread]]]; [done|done|].
    rewrite Hok. cbn [negb].
    destruct Hread as [-> | ->]; [done|].
    by destruct (bpf_probe_read_kernel_u32 _ _). }
  rewrite Heq. cbn [snd]. autorewrite with bpf_state.
  do 4 (split; [done|]).
  split; [apply counter_value_incremented|].
  apply counter_value_untouched. by right.
Qed.

Lemma trace_connect_rejects_witness :
  let h := host_of "claude" true no_mem
             (mem_of 20480 (take 4 (sockaddr_in_bytes AF_INET 443 1 2 3 4))) in
  events (trace_connect (connect_ctx 9 20480) h tracked_state).2 = []
  /\ counter_value (trace_connect (connect_ctx 9 20480) h tracked_state).2
       0 COUNTER_EVENTS_DROPPED = 0.
Proof.
  intros h.
  destruct (trace_connect_rejects (connect_ctx 9 20480) h tracked_state 100
              eq_refl
              (or_intror (or_intror (conj eq_refl (or_introl eq_refl)))))
    as (_ & He & _ & _ & _ & Hd).
  exact (conj He Hd).
Defined.

Lemma token_at_unique m p (cs cs' : list ascii) :
  token_at m p cs -> token_at m p cs' -> length cs = length cs'.
Proof.
  assert (Hlt : forall a b : list ascii,
            token_at m p a -> token_at m p b ->
            ~ (length a < length b)%nat).
  { intros a b (_ & _ & Hsp) (Hr & Hns & _) Hlen.
    destruct (lookup_lt_is_Some_2 b (length a) Hlen) as [c Hc].
    rewrite readable_lookup in Hr. specialize (Hr _ _ Hc).
    unfold no_space in Hns. rewrite Forall_lookup in Hns.
    specialize (Hns _ _ Hc). simpl in Hns. congruence. }
  intros Ha Hb.
  pose proof (Hlt _ _ Ha Hb). pose proof (Hlt _ _ Hb Ha). lia.
Qed.

(** X10.  A write activation leaves the state as it is, whatever the
    trackers hold, when the length is below 16 or above 512, when none of
    the first 8 bytes of the buffer reads as a space, or when the first
    space follows fewer than 3 readable bytes. *)
Theorem trace_write_rejects ctx h s :
  (arg ctx 2 < 16 \/ 512 < arg ctx 2
   \/ (forall j, 0 <= j < 8 -> user_mem h (arg ctx 1 + j) <> Some SP)
   \/ (exists cs : list ascii,
         token_at (user_mem h) (arg ctx 1) cs /\ Z.of_nat (length cs) < 3)) ->
  trace_write ctx h s = (0, s).
Proof.
  intros Hbad.
  destruct (trace_write_cases ctx h s)
    as [?|(t & si & method & uri & _ & _ & Hc & Hrl & _)]; [done|].
  exfalso. destruct Hrl as (Hm & Hlen & _).
  destruct Hbad as [?|[?|[Hnosp|(cs & Hcs & Hshort)]]]; try lia.
  - destruct Hm as (_ & _ & Hsp).
    by apply (Hnosp (Z.of_nat (length method))); [lia|].
  - pose proof (token_at_unique _ _ _ _ Hm Hcs). lia.
Qed.

Lemma trace_write_rejects_witness :
  trace_write (write_ctx 5 4096 49)
    (host_of "claude" true (mem_of 4096 (chars "OPTIONS_ABCDEFGH /x ")) no_mem)
    tracked_state
  = (0, tracked_state).
Proof.
  apply trace_write_rejects. right. right. left.
  intros j Hj.
  assert (Hcase : j = 0 \/ j = 1 \/ j = 2 \/ j = 3 \/ j = 4 \/ j = 5
                  \/ j = 6 \/ j = 7) by lia.
  destruct Hcase as [->|[->|[->|[->|[->|[->|[->| ->]]]]]]];
    vm_compute; discriminate.
Defined.

(** ** The declared content length *)

Lemma cl_digits_S m data data_len start fuel k acc :
  cl_digits m data data_len start (S fuel) k acc
  = if (k <? 10) && (start + k <? data_len) then
      match bpf_probe_read_user m (data + start + k) with
      | None => acc
      | Some c =>
          if (char_code "0" <=? char_code c) && (char_code c <=? char_code "9")
          then cl_digits m data data_len start fuel (k + 1)
                 (wrap32 (acc * 10 + (char_code c - char_code "0")))
          else acc
      end
    else acc.
Proof. reflexivity. Qed.

Lemma cl_header_cmp_cons m p c (hdr : list ascii) :
  cl_header_cmp m p (c :: hdr)
  = match bpf_probe_read_user m p with
    | None => CmpFault
    | Some x =>
        if negb (Ascii.eqb x c) then CmpMismatch
        else cl_header_cmp m (p + 1) hdr
    end.
Proof. reflexivity. Qed.

Lemma cl_digits_range m data data_len start : forall fuel k acc,
  0 <= acc < 2 ^ 32 ->
  0 <= cl_digits m data data_len start fuel k acc < 2 ^ 32.
Proof.
  induction fuel as [|fuel IH]; intros k acc Hacc; [done|].
  rewrite cl_digits_S. repeat case_match; try done.
  apply IH, wrap32_range.
Qed.

Lemma parse_content_length_loop_range m data data_len : forall fuel i,
  0 <= parse_content_length_loop m data data_len fuel i < 2 ^ 32.
Proof.
  induction fuel as [|fuel IH]; intros i; [by vm_compute|].
  rewrite parse_content_length_loop_S.
  repeat case_match; try done; try lia.
  apply cl_digits_range. lia.
Qed.

Lemma cl_header_cmp_mismatch m (hdr : list ascii) : forall p,
  (forall j, 0 <= j < Z.of_nat (length hdr) -> is_Some (m (p + j))) ->
  ~ readable m p hdr ->
  cl_header_cmp m p hdr = CmpMismatch.
Proof.
  induction hdr as [|c hdr IH]; intros p Hall Hno; [by destruct Hno|].
  rewrite cl_header_cmp_cons. unfold bpf_probe_read_user.
  destruct (Hall 0) as [x Hx]; [simpl; lia|].
  rewrite Z.add_0_r in Hx. rewrite Hx.
  destruct (Ascii.eqb_spec x c) as [->|Hne]; cbn [negb]; [|done].
  apply IH.
  - intros j Hj. rewrite <- Z.add_assoc. apply Hall. simpl length. lia.
  - intros Hr. apply Hno. by split.
Qed.

Lemma parse_content_length_loop_absent m data data_len : forall fuel i,
  0 <= i ->
  (forall j, i <= j -> j < HTTP_HEADER_SIZE -> j < data_len - cl_header_len ->
             cl_header_cmp m (data + j) cl_header = CmpMismatch) ->
  parse_content_length_loop m data data_len fuel i = 0.
Proof.
  induction fuel as [|fuel IH]; intros i Hi Hmis; [done|].
  rewrite parse_content_length_loop_S.
  destruct (Z.ltb_spec i HTTP_HEADER_SIZE),
    (Z.ltb_spec i (data_len - cl_header_len)); cbn [andb]; try done.
  rewrite Hmis by lia. apply IH; [lia|].
  intros j Hj. apply Hmis. lia.
Qed.

(** X11.  The content length the parser returns always fits 32 bits.  It
    is 0 when the data is at most 16 bytes long, and it is 0 when every
    byte of the data can be read and the literal "Content-Length: " does
    not occur at any offset the search visits (below 512 and more than 16
    bytes before the end of the data). *)
Theorem parse_content_length_range_and_absence m data data_len :
  0 <= parse_content_length m data data_len < 2 ^ 32
  /\ (data_len <= 16 -> parse_content_length m data data_len = 0)
  /\ ((forall j, 0 <= j < data_len -> is_Some (m (data + j))) ->
      (forall i, 0 <= i < 512 -> i < data_len - 16 ->
                 ~ readable m (data + i) cl_header) ->
      parse_content_length m data data_len = 0).
Proof.
  unfold parse_content_length.
  split; [apply parse_content_length_loop_range|]. split.
  - intros Hshort. apply parse_content_length_loop_absent; [lia|].
    unfold cl_header_len. intros j Hj _ Hlt. lia.
  - intros Hall Hno. apply parse_content_length_loop_absent; [lia|].
    unfold HTTP_HEADER_SIZE, cl_header_len. intros j Hj H512 Hlt.
    apply cl_header_cmp_mismatch.
    + intros k Hk. change (Z.of_nat (length cl_header)) with 16 in Hk.
      rewrite <- Z.add_assoc. apply Hall. lia.
    + apply Hno; lia.
Qed.

(** ** Emitted HTTP records *)

Lemma padded_length (cap : nat) (cs : list ascii) :
  (length cs <= cap)%nat -> length (padded cap cs) = cap.
Proof.
  intros H. unfold padded. rewrite length_app, length_replicate. lia.
Qed.

Lemma padded_lookup_nul (cap : nat) (cs : list ascii) k :
  (length cs <= k < cap)%nat -> padded cap cs !! k = Some NUL.
Proof.
  intros H. unfold padded. rewrite lookup_app_r by lia.
  apply lookup_replicate_2. lia.
Qed.

Lemma padded_lookup_byte (cap : nat) (cs : list ascii) k :
  (k < length cs)%nat -> padded cap cs !! k = cs !! k.
Proof. intros H. unfold padded. by rewrite lookup_app_l. Qed.

(** X12.  Every record the write handler emits is well formed.  It is
    an HTTP_REQUEST record of the current pid that carries the descriptor
    and the address and port of the descriptor's correlation entry.  Its
    method field has 8 bytes: the 3 to 7 bytes found before the first
    space of the buffer, then NUL up to the end.  Its URI field has 128
    bytes: the 1 to 127 bytes between the first and the second space,
    then NUL up to the end.  Its content length fits 32 bits.  Without
    such a record the handler appends nothing. *)
Theorem http_request_record_well_formed ctx h s :
  let s' := (trace_write ctx h s).2 in
  let m := user_mem h in
  let buf := arg ctx 1 in
  events s' = events s
  \/ exists ev si (method uri : list ascii),
       events s' = events s ++ [ev]
       /\ is_Some (claude_pids s !! current_pid h)
       /\ socket_connections s !! wrap32 (arg ctx 0) = Some si
       /\ event_type ev = EVENT_HTTP_REQUEST
       /\ pid ev = current_pid h
       /\ socket_fd ev = wrap32 (arg ctx 0)
       /\ target_addr ev = si_target_addr si
       /\ target_port ev = si_target_port si
       /\ (3 <= length method <= 7)%nat
       /\ readable m buf (method ++ [SP]) /\ no_space method
       /\ length (http_method ev) = 8%nat
       /\ (forall k, (k < length method)%nat ->
             http_method ev !! k = method !! k)
       /\ (forall k, (length method <= k < 8)%nat ->
             http_method ev !! k = Some NUL)
       /\ (1 <= length uri <= 127)%nat
       /\ readable m (buf + Z.of_nat (length method) + 1) (uri ++ [SP])
       /\ no_space uri
       /\ length (http_uri ev) = 128%nat
       /\ (forall k, (k < length uri)%nat -> http_uri ev !! k = uri !! k)
       /\ (forall k, (length uri <= k < 128)%nat ->
             http_uri ev !! k = Some NUL)
       /\ 0 <= content_length ev < 2 ^ 32.
Proof.
  intros s' m buf. subst s'.
  destruct (trace_write_cases ctx h s)
    as [->|(t & si & method & uri & Ht & Hs & Hc & Hrl & ->)];
    cbn [snd]; [by left|].
  rewrite write_outcome_events.
  destruct (ringbuf_reserve_ok h); [|by left].
  right. eexists _, si, method, uri.
  destruct Hrl as ((Hmr & Hmn & Hms) & Hml & (Hur & Hun & Hus) & Hul & _).
  split; [done|]. split; [by eexists|]. split; [done|].
  do 5 (split; [done|]).
  split; [lia|]. split.
  { apply readable_app. split; [done|]. simpl. by split. }
  split; [done|]. cbn [http_request_event http_method http_uri
                        content_length].
  split; [apply padded_length; lia|].
  split; [intros k Hk; by apply padded_lookup_byte|].
  split; [intros k Hk; by apply padded_lookup_nul|].
  split; [lia|]. split.
  { apply readable_app. split; [done|]. simpl. by split. }
  split; [done|].
  split; [apply padded_length; lia|].
  split; [intros k Hk; by apply padded_lookup_byte|].
  split; [intros k Hk; by apply padded_lookup_nul|].
  apply parse_content_length_loop_range.
Qed.

(** ** Invariants of sequences of activations *)

Lemma activate_events a s :
  events (activate a s).2 = events s
  \/ exists ev, events (activate a s).2 = events s ++ [ev].
Proof.
  destruct a as [ctx h|ctx h|ctx h|ctx h]; simpl.
  - destruct (trace_execve_cases ctx h s)
      as [->|[(_ & _ & ->)|(_ & _ & ev & _ & _ & _ & ->)]];
      cbn [snd]; autorewrite with bpf_state; eauto.
  - destruct (trace_connect_cases ctx h s)
      as [->|(_ & [->|[(_ & ->)|(_ & ra & rp & _ & _ & _ & ->)]])];
      cbn [snd]; autorewrite with bpf_state; eauto.
    right. eexists.
    by destruct (is_anthropic_connection ra (bpf_ntohs rp));
      autorewrite with bpf_state.
  - destruct (trace_exit_cases ctx h s)
      as [->|(_ & [(_ & ->)|(_ & ev & _ & _ & _ & _ & ->)])];
      cbn [snd]; autorewrite with bpf_state; eauto.
  - destruct (trace_write_cases ctx h s)
      as [->|(t & si & method & uri & _ & _ & _ & _ & ->)];
      cbn [snd]; [by left|].
    rewrite write_outcome_events. destruct (ringbuf_reserve_ok h); eauto.
Qed.

(** X14.  The ring buffer is append-only across a sequence of
    activations: the records submitted before the sequence are still
    there, in the same order, followed by the new ones, and there is at
    most one new record per activation. *)
Theorem run_appends_records (acts : list activation) s :
  exists new,
    events (run acts s) = events s ++ new
    /\ (length new <= length acts)%nat.
Proof.
  revert s. induction acts as [|a acts IH]; intros s.
  - exists []. by rewrite app_nil_r.
  - rewrite run_cons. destruct (IH (activate a s).2) as (new & Hnew & Hlen).
    destruct (activate_events a s) as [He|[ev He]]; rewrite He in Hnew.
    + exists new. split; [done|]. simpl. lia.
    + exists (ev :: new). rewrite <- app_assoc in Hnew.
      split; [done|]. simpl. lia.
Qed.

Lemma activate_tracks a s p :
  is_Some (claude_pids (activate a s).2 !! p) ->
  is_Some (claude_pids s !! p) \/ marks p a.
Proof.
  unfold marks.
  destruct a as [ctx h|ctx h|ctx h|ctx h]; simpl.
  - destruct (trace_execve_cases ctx h s)
      as [->|[(_ & _ & ->)|(Hm & Hok & ev & _ & _ & _ & ->)]];
      cbn [snd]; autorewrite with bpf_state; auto.
    destruct (decide (current_pid h = p)) as [<-|Hne]; [by right|].
    rewrite bpf_map_update_elem_lookup_ne by done. auto.
  - destruct (trace_connect_cases ctx h s)
      as [->|(_ & [->|[(_ & ->)|(_ & ra & rp & _ & _ & _ & ->)]])];
      cbn [snd]; autorewrite with bpf_state; auto.
    by destruct (is_anthropic_connection ra (bpf_ntohs rp));
      autorewrite with bpf_state; auto.
  - destruct (trace_exit_cases ctx h s)
      as [->|(_ & [(_ & ->)|(_ & ev & _ & _ & _ & _ & ->)])];
      cbn [snd]; autorewrite with bpf_state; auto;
      unfold bpf_map_delete_elem; intros [x Hx];
      apply lookup_delete_Some in Hx as [_ Hx]; left; by eexists.
  - destruct (trace_write_cases ctx h s)
      as [->|(t & si & method & uri & _ & _ & _ & _ & ->)];
      cbn [snd]; [auto|].
    unfold write_outcome. destruct (ringbuf_reserve_ok h);
      autorewrite with bpf_state; auto.
Qed.

(** X15.  A pid is tracked only because of a matching exec: if a pid is
    in the identity tracker after a sequence of activations, it was in
    the tracker before the sequence, or the sequence contains an exec
    activation of that pid whose process name passes the filter and whose
    ring-buffer reservation succeeds. *)
Theorem tracked_only_after_matching_exec (acts : list activation) s p :
  is_Some (claude_pids (run acts s) !! p) ->
  is_Some (claude_pids s !! p) \/ Exists (marks p) acts.
Proof.
  revert s. induction acts as [|a acts IH]; intros s Hp; [by left|].
  rewrite run_cons in Hp. destruct (IH _ Hp) as [Hs1|Hex].
  - destruct (activate_tracks a s p Hs1) as [?|?]; [by left|].
    right. by apply Exists_cons_hd.
  - right. by apply Exists_cons_tl.
Qed.

Lemma tracked_only_after_matching_exec_witness :
  Exists (marks 7)
    [ActConnect (connect_ctx 9 20480)
       (host_of "claude" true no_mem (sockaddr_mem 443));
     ActExecve (exec_ctx 0) (host_of "claude" true no_mem no_mem)].
Proof.
  destruct (tracked_only_after_matching_exec
              [ActConnect (connect_ctx 9 20480)
                 (host_of "claude" true no_mem (sockaddr_mem 443));
               ActExecve (exec_ctx 0) (host_of "claude" true no_mem no_mem)]
              empty_state 7 ltac:(vm_compute; eauto)) as [[x Hx]|Hex].
  - vm_compute in Hx. discriminate.
  - exact Hex.
Defined.

Lemma bpf_map_update_elem_lookup_Some {V : Type} (n : nat) k k' (v x : V)
    (m : gmap Z V) :
  bpf_map_update_elem n k v m !! k' = Some x ->
  x = v \/ m !! k' = Some x.
Proof.
  unfold bpf_map_update_elem.
  destruct (m !! k); [|destruct (size m <? n)%nat]; auto;
    rewrite lookup_insert; case_decide; intros [= ?]; auto.
Qed.

Lemma activate_interesting_ports a s :
  interesting_ports_only s -> interesting_ports_only (activate a s).2.
Proof.
  unfold interesting_ports_only. intros Hinv.
  destruct a as [ctx h|ctx h|ctx h|ctx h]; simpl.
  - destruct (trace_execve_cases ctx h s)
      as [->|[(_ & _ & ->)|(_ & _ & ev & _ & _ & _ & ->)]];
      cbn [snd]; by autorewrite with bpf_state.
  - destruct (trace_connect_cases ctx h s)
      as [->|(_ & [->|[(_ & ->)|(_ & ra & rp & _ & _ & _ & ->)]])];
      cbn [snd]; autorewrite with bpf_state; try done.
    destruct (is_anthropic_connection ra (bpf_ntohs rp)) eqn:Hport;
      autorewrite with bpf_state; [|done].
    intros fd si Hsi.
    apply bpf_map_update_elem_lookup_Some in Hsi as [->|Hsi]; [|eauto].
    simpl. unfold is_anthropic_connection in Hport.
    apply orb_true_iff in Hport as [Hp|Hp]; apply Z.eqb_eq in Hp; auto.
  - destruct (trace_exit_cases ctx h s)
      as [->|(_ & [(_ & ->)|(_ & ev & _ & _ & _ & _ & ->)])];
      cbn [snd]; by autorewrite with bpf_state.
  - destruct (trace_write_cases ctx h s)
      as [->|(t & si & method & uri & _ & _ & _ & _ & ->)];
      cbn [snd]; [done|].
    unfold write_outcome. destruct (ringbuf_reserve_ok h);
      by autorewrite with bpf_state.
Qed.

(** X16.  The correlation tracker holds only destinations on port 443
    or 80: if that is so before a sequence of activations, it is so
    after it.  In particular it holds of every state reached from empty
    maps, and every HTTP_REQUEST record then carries port 443 or 80. *)
Theorem interesting_ports_invariant (acts : list activation) s :
  interesting_ports_only s ->
  interesting_ports_only (run acts s)
  /\ forall ctx h ev,
       events (trace_write ctx h (run acts s)).2
       = events (run acts s) ++ [ev] ->
       target_port ev = 443 \/ target_port ev = 80.
Proof.
  intros Hinv.
  assert (Hrun : interesting_ports_only (run acts s)).
  { revert s Hinv. induction acts as [|a acts IH]; intros s Hinv; [done|].
    rewrite run_cons. by apply IH, activate_interesting_ports. }
  split; [done|]. intros ctx h ev Hev.
  destruct (trace_write_cases ctx h (run acts s))
    as [Hno|(t & si & method & uri & _ & Hsi & _ & _ & Heq)].
  - rewrite Hno in Hev. cbn [snd] in Hev.
    apply (f_equal length) in Hev. rewrite length_app in Hev.
    simpl in Hev. lia.
  - rewrite Heq in Hev. cbn [snd] in Hev.
    rewrite write_outcome_events in Hev.
    destruct (ringbuf_reserve_ok h).
    + apply app_inj_tail in Hev as [_ <-]. simpl. by apply (Hrun _ _ Hsi).
    + apply (f_equal length) in Hev. rewrite length_app in Hev.
      simpl in Hev. lia.
Qed.

Lemma interesting_ports_invariant_witness :
  interesting_ports_only
    (run [ActExecve (exec_ctx 0) (host_of "claude" true no_mem no_mem);
          ActConnect (connect_ctx 9 20480)
            (host_of "claude" true no_mem (sockaddr_mem 8080));
          ActConnect (connect_ctx 10 20480)
            (host_of "claude" true no_mem (sockaddr_mem 443))]
       empty_state).
Proof.
  apply interesting_ports_invariant.
  intros fd si Hsi. vm_compute in Hsi. discriminate.
Defined.

(** ** The parsers stay inside the data *)

(** X17.  The three parsers read the buffer only at offsets below the
    length they are given: on two memories that hold the same bytes (or
    the same faults) at those offsets they return the same results,
    whatever lies beyond. *)
Theorem parsers_read_only_the_data m data m' data' data_len :
  same_bytes m data m' data' data_len ->
  (forall out max_len,
     parse_http_method m data data_len out max_len
     = parse_http_method m' data' data_len out max_len)
  /\ (forall method_len out max_len,
        0 <= method_len ->
        parse_http_uri m data data_len method_len out max_len
        = parse_http_uri m' data' data_len method_len out max_len)
  /\ parse_content_length m data data_len
     = parse_content_length m' data' data_len.
Proof.
  intros Hsame. split; [|split].
  - intros out max_len. by apply parse_http_method_ext.
  - intros method_len out max_len Hml. by apply parse_http_uri_ext.
  - by apply parse_content_length_ext.
Qed.

Lemma parsers_read_only_the_data_witness :
  parse_content_length (mem_of 4096 (request ++ chars "Content-Length: 7"))
    4096 49
  = parse_content_length (mem_of 0 request) 0 49.
Proof.
  assert (Hr : readable (mem_of 4096 (request ++ chars "Content-Length: 7"))
                 4096 request).
  { pose proof (readable_mem_of 4096 [] request (chars "Content-Length: 7"))
      as H. simpl length in H. by rewrite Z.add_0_r in H. }
  exact (proj2 (proj2 (parsers_read_only_the_data _ _ _ _ 49
                         (same_bytes_readable _ _ _ Hr)))).
Defined.
